(** * lmms_eval.evaluator: the distributed dispatch and aggregation engine

    A shallow embedding of [evaluate] of [lmms_eval/evaluator.py] and the
    properties its specification states about it.  Python objects with
    identity (the [Instance]s shared between [task.instances],
    [requests[reqtype]] and [cloned_reqs]) live in a heap; exceptions are
    values of [exn]; the function body runs in a state-and-exception monad
    over the interpreter state of one rank. *)

From stdpp Require Import gmap strings list fin_maps sorting.

Local Open Scope string_scope.
Local Open Scope list_scope.
Local Open Scope stdpp_scope.

(** ** Python prelude *)

Module Py.

(** The exceptions [evaluate] can raise by itself. *)
Inductive exn : Type :=
  | NameError (name : string)
  | UnboundLocalError (name : string)
  | IndexError (what : string)
  | KeyError (key : string)
  | AttributeError (attr : string)
  | TypeError (msg : string)
  | ValueError (msg : string).

Inductive result (A : Type) : Type :=
  | Ok (a : A)
  | Raise (e : exn).
Global Arguments Ok {A} a.
Global Arguments Raise {A} e.

Global Instance result_ret : MRet result := fun A a => Ok a.
Global Instance result_bind : MBind result := fun A B k r =>
  match r with
  | Ok a => k a
  | Raise e => Raise e
  end.

(** A computation over an interpreter state [S]: the state survives an
    exception, as the mutations done before a Python [raise] do. *)
Definition M (S A : Type) : Type := S -> S * result A.

Global Instance M_ret {S} : MRet (M S) := fun A a s => (s, Ok a).
Global Instance M_bind {S} : MBind (M S) := fun A B k c s =>
  match c s with
  | (s', Ok a) => k a s'
  | (s', Raise e) => (s', Raise e)
  end.
Global Instance M_throw {S} : MThrow exn (M S) := fun A e s => (s, Raise e).

Definition get {S} : M S S := fun s => (s, Ok s).
Definition modify {S} (f : S -> S) : M S unit := fun s => (f s, Ok tt).
Definition lift {S A} (r : result A) : M S A := fun s => (s, r).

(** [for x in l: body x] *)
Fixpoint for_each {S A} (l : list A) (body : A -> M S unit) : M S unit :=
  match l with
  | [] => mret tt
  | x :: l' => body x ;; for_each l' body
  end.

(** A loop that threads a local [b] through its iterations. *)
Fixpoint fold_each {S A B} (l : list A) (b : B) (body : B -> A -> M S B) : M S B :=
  match l with
  | [] => mret b
  | x :: l' => b' ← body b x; fold_each l' b' body
  end.

(** [[f x for x in l]] where [f] may raise *)
Fixpoint comprehension {S A B} (f : A -> M S B) (l : list A) : M S (list B) :=
  match l with
  | [] => mret []
  | x :: l' => y ← f x; ys ← comprehension f l'; mret (y :: ys)
  end.

(** A computation keeps a property of the state, however it ends. *)
Definition preserves {S A} (P : S -> Prop) (c : M S A) : Prop :=
  forall s, P s -> P (c s).1.

(** A [dict] keeps insertion order: [d[k] = v] overwrites in place or
    appends. *)
Definition dict (K V : Type) : Type := list (K * V).

Fixpoint dict_get {K V} `{EqDecision K} (d : dict K V) (k : K) : option V :=
  match d with
  | [] => None
  | (k', v) :: d' => if decide (k' = k) then Some v else dict_get d' k
  end.

Fixpoint dict_set {K V} `{EqDecision K} (d : dict K V) (k : K) (v : V) : dict K V :=
  match d with
  | [] => [(k, v)]
  | (k', v') :: d' => if decide (k' = k) then (k, v) :: d' else (k', v') :: dict_set d' k v
  end.

Definition dict_keys {K V} (d : dict K V) : list K := d.*1.

(** [enumerate(l)] *)
Definition enumerate {A} (l : list A) : list (nat * A) := imap (fun i x => (i, x)) l.

(** [itertools.islice(l, start, stop, step)]: the elements at positions
    [start], [start + step], ... below [stop]; [skip] counts the elements
    still to pass over before the next one is yielded. *)
Fixpoint islice_from {A} (skip step : nat) (l : list A) : list A :=
  match l with
  | [] => []
  | x :: l' =>
      match skip with
      | 0 => x :: islice_from (pred step) step l'
      | S k => islice_from k step l'
      end
  end.

Definition islice {A} (l : list A) (start : nat) (stop : option nat) (step : nat)
  : result (list A) :=
  if decide (step = 0)
  then Raise (ValueError "Step for islice() must be a positive integer or None.")
  else Ok (islice_from start step (match stop with Some n => take n l | None => l end)).

(** [list.sort(key=...)]: ascending and stable.  [insert_by] puts [x]
    in front of the first element whose key is not smaller, so that of two
    elements with equal keys the one that came first stays first. *)
Fixpoint insert_by {A} (key : A -> nat) (x : A) (l : list A) : list A :=
  match l with
  | [] => [x]
  | y :: l' => if decide (key x <= key y) then x :: y :: l' else y :: insert_by key x l'
  end.

Definition sort_by {A} (key : A -> nat) (l : list A) : list A :=
  foldr (insert_by key) [] l.

(** Name resolution.  A name that [evaluate] never assigns is looked up in
    the module's globals (and the builtins, which hold none of the names
    read below); these are the names evaluator.py binds at module level. *)
Inductive pyobj : Type :=
  | PyModule (name : string)
  | PyFunction (name : string)
  | PyStr (s : string).

Global Instance pyobj_eq_dec : EqDecision pyobj.
Proof. solve_decision. Defined.

Definition module_globals : dict string pyobj :=
  [ ("collections", PyModule "collections"); ("inspect", PyModule "inspect");
    ("itertools", PyModule "itertools"); ("json", PyModule "json");
    ("os", PyModule "os"); ("random", PyModule "random"); ("sys", PyModule "sys");
    ("time", PyModule "time"); ("np", PyModule "numpy"); ("torch", PyModule "torch");
    ("Image", PyFunction "datasets.Image"); ("Sequence", PyFunction "datasets.Sequence");
    ("eval_logger", PyModule "loguru.logger"); ("tqdm", PyFunction "tqdm.tqdm");
    ("lmms_eval", PyModule "lmms_eval");
    ("create_iterator", PyFunction "lmms_eval.utils.create_iterator");
    ("get_git_commit_hash", PyFunction "lmms_eval.utils.get_git_commit_hash");
    ("make_table", PyFunction "lmms_eval.utils.make_table");
    ("positional_deprecated", PyFunction "lmms_eval.utils.positional_deprecated");
    ("run_task_tests", PyFunction "lmms_eval.utils.run_task_tests");
    ("simple_parse_args_string", PyFunction "lmms_eval.utils.simple_parse_args_string");
    ("simple_evaluate", PyFunction "simple_evaluate");
    ("decontaminate_suffix", PyStr "_decontaminate");
    ("evaluate", PyFunction "evaluate") ].

Definition load_global {S} (x : string) : M S pyobj :=
  match dict_get module_globals x with
  | Some o => mret o
  | None => mthrow (NameError x)
  end.

(** [d[k]] on a dict with string keys, for an arbitrary object [k]. *)
Definition subscript {S V} (d : dict string V) (k : pyobj) : M S V :=
  match k with
  | PyStr key =>
      match dict_get d key with
      | Some v => mret v
      | None => mthrow (KeyError key)
      end
  | PyModule n | PyFunction n => mthrow (KeyError n)
  end.

End Py.
Import Py.

(** ** Data model *)

Section Evaluator.

(** Documents, model outputs (raw and filtered alike), the numbers a metric
    returns (int, float or bool), the elements of a float32 tensor, tensor
    element types, and the opaque metric values (str, list or dict). *)
Context {doc response scalar f32 dtype obj : Type}.
Context `{EqDecision f32}.

(** Identity of an [Instance] object. *)
Definition loc : Type := nat.

(** One request: the object's identity and the attributes that are fixed
    when the task builds it.  The attributes the evaluator mutates,
    [resps] and [filtered_resps], are kept in the state by identity, so
    that every reference to one object sees the same lists. *)
Record Instance : Type := mkInstance {
  oid : loc;
  request_type : string;
  doc_id : nat;
  idx : nat;
  repeats : nat;
}.

(** What a metric function returns for one document and metric. *)
Inductive mvalue : Type :=
  | MNum (x : scalar)
  | MTuple (xs : list scalar)
  | MObj (o : obj).

(** The task contract, as far as [evaluate] uses it.  [metric_fn_list] is
    [None] when the task has no [_metric_fn_list] attribute;
    [build_all_requests limit rank world_size] are the instances the task
    holds on a rank afterwards ([task.instances], which reads
    [task._instances]); [apply_filters] gives the [filtered_resps] of every
    instance from the instances and their [resps]; [remove_columns] is
    the removal of the image columns from a document. *)
Record Task : Type := mkTask {
  OUTPUT_TYPE : string;
  metric_fn_list : option (list string);
  has_test_docs : bool;
  test_docs : list doc;
  validation_docs : list doc;
  process_results_use_image : bool;
  remove_columns : doc -> doc;
  build_all_requests : option nat -> nat -> nat -> list Instance;
  apply_filters : list (Instance * list response) -> list (dict string response);
  process_results : doc -> list response -> dict string mvalue;
}.

Record TaskOutput : Type := mkTaskOutput {
  task_name : string;
  task : Task;
}.

(** The backend: [getattr(lm, reqtype)], when the attribute exists, takes
    the submitted requests and returns the responses. *)
Definition LM : Type := string -> option (list Instance -> list response).

(** The interpreter state of one rank inside [evaluate]: the mutable
    attributes of the [Instance] objects (a fresh object has [resps = []]
    and [filtered_resps = {}]), the locals of the function that matter,
    the mutable attributes of the tasks (by position in [eval_tasks]), and
    the log of the batches submitted to the backend.  [vals] is a local
    that is unbound until it is assigned. *)
Record state : Type := mkState {
  resps : gmap loc (list response);
  filtered_resps : gmap loc (dict string response);
  limit : option nat;
  requests : dict string (list Instance);
  padding_requests : gmap string nat;
  instances : gmap nat (list Instance);
  sample_metrics : gmap nat (dict (string * pyobj) (list mvalue));
  vals : option (dict (string * string * string) (list mvalue));
  lm_calls : list (string * list Instance);
}.

Definition set_resps (f : gmap loc (list response) -> gmap loc (list response)) (s : state) : state :=
  mkState (f (resps s)) (filtered_resps s) (limit s) (requests s) (padding_requests s)
          (instances s) (sample_metrics s) (vals s) (lm_calls s).
Definition set_filtered_resps
    (f : gmap loc (dict string response) -> gmap loc (dict string response)) (s : state) : state :=
  mkState (resps s) (f (filtered_resps s)) (limit s) (requests s) (padding_requests s)
          (instances s) (sample_metrics s) (vals s) (lm_calls s).
Definition set_limit (l : option nat) (s : state) : state :=
  mkState (resps s) (filtered_resps s) l (requests s) (padding_requests s)
          (instances s) (sample_metrics s) (vals s) (lm_calls s).
Definition set_requests
    (f : dict string (list Instance) -> dict string (list Instance)) (s : state) : state :=
  mkState (resps s) (filtered_resps s) (limit s) (f (requests s)) (padding_requests s)
          (instances s) (sample_metrics s) (vals s) (lm_calls s).
Definition set_padding_requests (f : gmap string nat -> gmap string nat) (s : state) : state :=
  mkState (resps s) (filtered_resps s) (limit s) (requests s) (f (padding_requests s))
          (instances s) (sample_metrics s) (vals s) (lm_calls s).
Definition set_instances
    (f : gmap nat (list Instance) -> gmap nat (list Instance)) (s : state) : state :=
  mkState (resps s) (filtered_resps s) (limit s) (requests s) (padding_requests s)
          (f (instances s)) (sample_metrics s) (vals s) (lm_calls s).
Definition set_sample_metrics
    (f : gmap nat (dict (string * pyobj) (list mvalue)) ->
         gmap nat (dict (string * pyobj) (list mvalue))) (s : state) : state :=
  mkState (resps s) (filtered_resps s) (limit s) (requests s) (padding_requests s)
          (instances s) (f (sample_metrics s)) (vals s) (lm_calls s).
Definition set_vals (v : option (dict (string * string * string) (list mvalue))) (s : state) : state :=
  mkState (resps s) (filtered_resps s) (limit s) (requests s) (padding_requests s)
          (instances s) (sample_metrics s) v (lm_calls s).
Definition set_lm_calls
    (f : list (string * list Instance) -> list (string * list Instance)) (s : state) : state :=
  mkState (resps s) (filtered_resps s) (limit s) (requests s) (padding_requests s)
          (instances s) (sample_metrics s) (vals s) (f (lm_calls s)).

(** The state [evaluate] starts from (lines 319-346). *)
Definition initial_state (limit0 : option nat) : state :=
  mkState ∅ ∅ limit0 [] ∅ ∅ ∅ None [].

(** [d[k].append(x)] on a [defaultdict(list)]. *)
Definition dict_append {K V} `{EqDecision K} (d : dict K (list V)) (k : K) (x : V)
  : dict K (list V) :=
  dict_set d k (default [] (dict_get d k) ++ [x]).

(** ** Lines 347-349: the guard on [log_samples] *)

Definition has_bypass (t : Task) : bool :=
  match metric_fn_list t with
  | Some keys => bool_decide ("bypass" ∈ keys)
  | None => false
  end.

Definition check_log_samples (log_samples : bool) (eval_tasks : list TaskOutput) : M state unit :=
  if log_samples then mret tt
  else if forallb (fun task_output => negb (has_bypass (task task_output))) eval_tasks
       then mret tt
       else mthrow (ValueError "log_samples must be True for 'bypass' metric-only tasks").

(** ** Lines 351-413: building the requests and the padding ledger *)

(** [get_sample_size] is imported from a module outside this file. *)
Context (get_sample_size : Task -> option nat -> option nat).

(** [accelerator.gather] of one number per rank: every rank runs this same
    code on the same task list and limit, so the gathered list holds, in
    rank order, the value each rank computes. *)
Definition gather {A} (world_size : nat) (on_rank : nat -> A) : list A :=
  on_rank <$> seq 0 world_size.

(** The request type a task's padding is booked under (line 409). *)
Definition ledger_key (t : Task) : string :=
  if decide (OUTPUT_TYPE t = "multiple_choice") then "loglikelihood" else OUTPUT_TYPE t.

(** [max(gathered_item) - gathered_item[lm.rank]] (line 411). *)
Definition numpad (gathered_item : list nat) (rank : nat) : M state nat :=
  match gathered_item !! rank with
  | Some own => mret (max_list gathered_item - own)
  | None => mthrow (IndexError "list index out of range")
  end.

(** Line 407: the instance counts of all ranks for one task. *)
Definition gathered_counts (t : Task) (limit_ : option nat) (world_size : nat) : list nat :=
  gather world_size (fun r => length (build_all_requests t limit_ r world_size)).

(** One iteration of the loop over [eval_tasks] (lines 351-413); [i] is
    the position of the task output in [eval_tasks].  [task_output.task]
    is a task object; the book-keeping of versions, configs, aliases and
    the hierarchy, which the steps below never read, is left out. *)
Definition build_task (rank world_size : nat) (entry : nat * TaskOutput) : M state unit :=
  let '(i, task_output) := entry in
  let t := task task_output in
  s ← get;
  let limit' := get_sample_size t (limit s) in
  modify (set_limit limit');;
  let task_instances := build_all_requests t limit' rank world_size in
  modify (set_instances <[i := task_instances]>);;
  for_each task_instances (fun instance =>
    modify (set_requests (fun r => dict_append r (request_type instance) instance)));;
  if decide (1 < world_size) then
    n ← numpad (gathered_counts t limit' world_size) rank;
    modify (set_padding_requests (fun p => <[ledger_key t := p !!! ledger_key t + n]> p))
  else mret tt.

Definition build_requests (rank world_size : nat) (eval_tasks : list TaskOutput) : M state unit :=
  for_each (enumerate eval_tasks) (build_task rank world_size).

(** The number of requests of a type a rank holds, [len(requests[q])]. *)
Definition local_count (s : state) (q : string) : nat :=
  length (default [] (dict_get (requests s) q)).

(** The sum, over the tasks booked under the request type [q], of a
    quantity [f] of the task's gathered counts; the limit is threaded
    through the tasks as line 384 does. *)
Fixpoint ledger_sum (f : list nat -> nat) (world_size : nat) (tasks : list TaskOutput)
    (limit_ : option nat) (q : string) : nat :=
  match tasks with
  | [] => 0
  | task_output :: rest =>
      let limit' := get_sample_size (task task_output) limit_ in
      (if decide (ledger_key (task task_output) = q)
       then f (gathered_counts (task task_output) limit' world_size) else 0)
      + ledger_sum f world_size rest limit' q
  end.

(** ** Lines 417-436: running the requests *)

(** [cloned_reqs.extend([req] * req.repeats)] for every [req] (420-422). *)
Definition clone_reqs (reqs : list Instance) : list Instance :=
  reqs ≫= (fun req => replicate (repeats req) req).

(** Lines 424-426: [req] is the variable the loop above leaves behind,
    the last request of the group.  A group is never empty: it comes into
    being with its first request. *)
Definition pad_reqs (world_size n : nat) (reqs : list Instance) : list Instance :=
  if decide (1 < world_size ∧ 0 < n) then
    match last reqs with
    | Some req => mjoin (replicate n (replicate (repeats req) req))
    | None => []
    end
  else [].

(** [for x, req in zip(resps, cloned_reqs): req.resps.append(x)] *)
Definition write_back (resps_ : list response) (cloned_reqs : list Instance) : M state unit :=
  for_each (zip resps_ cloned_reqs) (fun '(x, req) =>
    modify (set_resps (fun h => <[oid req := h !!! oid req ++ [x]]> h))).

(** The responses [write_back] pairs with the object [l], in order. *)
Definition responses_for (l : loc) (resps_ : list response) (cloned_reqs : list Instance)
  : list response :=
  (filter (fun p => oid p.2 = l) (zip resps_ cloned_reqs)).*1.

(** One iteration of the loop over [requests.items()]; the barrier that
    ends it changes nothing on this rank. *)
Definition dispatch_group (lm : LM) (world_size : nat) (group : string * list Instance)
  : M state unit :=
  let '(reqtype, reqs) := group in
  s ← get;
  let cloned_reqs := clone_reqs reqs ++ pad_reqs world_size (padding_requests s !!! reqtype) reqs in
  match lm reqtype with
  | None => mthrow (AttributeError reqtype)
  | Some run =>
      modify (set_lm_calls (fun c => c ++ [(reqtype, cloned_reqs)]));;
      write_back (run cloned_reqs) cloned_reqs
  end.

Definition dispatch (lm : LM) (world_size : nat) : M state unit :=
  s ← get;
  for_each (requests s) (dispatch_group lm world_size).

(** ** Lines 442-519: collecting the metrics of every document *)

(** Lines 450-452: [instances_by_doc_id[instance.doc_id].append(instance)] *)
Definition group_by_doc_id (task_instances : list Instance) : gmap nat (list Instance) :=
  foldl (fun m instance => <[doc_id instance := m !!! doc_id instance ++ [instance]]> m)
        ∅ task_instances.

(** Lines 454-455: [instances.sort(key=lambda x: x.idx)] on every group. *)
Definition instances_by_doc_id (task_instances : list Instance) : gmap nat (list Instance) :=
  sort_by idx <$> group_by_doc_id task_instances.

(** Lines 460-471. *)
Definition docs_of (t : Task) : list doc :=
  let docs := if has_test_docs t then test_docs t else validation_docs t in
  if process_results_use_image t then docs else remove_columns t <$> docs.

(** Line 476: the documents of this rank. *)
Definition doc_iterator (docs : list doc) (rank : nat) (limit_ : option nat) (world_size : nat)
  : result (list (nat * doc)) :=
  islice (enumerate docs) rank limit_ world_size.

(** The documents a rank iterates over, and [docs[0:limit]]. *)
Definition shard (docs : list doc) (rank : nat) (limit_ : option nat) (world_size : nat)
  : list (nat * doc) :=
  match doc_iterator docs rank limit_ world_size with
  | Ok s => s
  | Raise _ => []
  end.

Definition truncated (docs : list doc) (limit_ : option nat) : list doc :=
  match limit_ with
  | Some n => take n docs
  | None => docs
  end.

(** [[req.filtered_resps[filter_key] for req in requests]] (lines 485 and
    504).  The enclosing loop binds [key]; [filter_key] is assigned nowhere
    in [evaluate], so it is read from the globals once per element. *)
Definition filtered_resps_of (requests_ : list Instance) : M state (list response) :=
  comprehension (fun req =>
    filter_key ← load_global "filter_key";
    s ← get;
    subscript (filtered_resps s !!! oid req) filter_key) requests_.

(** Lines 486-517.  Of the example record only what can raise is kept:
    its ["filtered_resps"] entry and the reads of [requests[0]]; the record
    itself goes to [task_output.logged_samples]. *)
Definition log_sample (requests_ : list Instance) : M state unit :=
  _ ← filtered_resps_of requests_;
  match requests_ with
  | [] => mthrow (IndexError "list index out of range")
  | _ :: _ => mret tt
  end.

(** Lines 483-519: the body of the loop over [doc_iterator]. *)
Definition collect_doc (t : Task) (i : nat) (log_samples : bool)
    (by_doc : gmap nat (list Instance)) (entry : nat * doc) : M state unit :=
  let '(doc_id_, doc_) := entry in
  let requests_ := by_doc !!! doc_id_ in
  filtered ← filtered_resps_of requests_;
  let metrics := process_results t doc_ filtered in
  (if log_samples then log_sample requests_ else mret tt);;
  for_each metrics (fun '(metric, value) =>
    filter_key ← load_global "filter_key";
    modify (set_sample_metrics (fun sm =>
      <[i := dict_append (sm !!! i) (metric, filter_key) value]> sm))).

(** Lines 442-519: one iteration of the loop over [eval_tasks]. *)
Definition collect_task (rank world_size : nat) (log_samples : bool)
    (entry : nat * TaskOutput) : M state unit :=
  let '(i, task_output) := entry in
  let t := task task_output in
  s ← get;
  let task_instances := instances s !!! i in
  let filtered := apply_filters t ((fun inst => (inst, resps s !!! oid inst)) <$> task_instances) in
  for_each (zip task_instances filtered) (fun '(inst, fr) =>
    modify (set_filtered_resps <[oid inst := fr]>));;
  let by_doc := instances_by_doc_id task_instances in
  match task_instances with
  | [] => mthrow (IndexError "list index out of range")
  | first :: _ =>
      s ← get;
      for_each (dict_keys (filtered_resps s !!! oid first)) (fun key =>
        s ← get;
        docs ← lift (doc_iterator (docs_of t) rank (limit s) world_size);
        for_each docs (collect_doc t i log_samples by_doc))
  end.

(** ** Lines 521-566: gathering the metrics across ranks *)

(** The float32 image of a number, the padding value
    [torch.finfo(torch.float32).min], the element type torch infers for a
    list, and the conversion of a float32 element back to that type. *)
Context (to_float32 : scalar -> f32) (pad_value : f32).
Context (tensor_dtype : list mvalue -> dtype) (to_dtype : dtype -> f32 -> scalar).

(** A float32 tensor of one or two dimensions. *)
Inductive tensor : Type :=
  | Tensor1 (xs : list f32)
  | Tensor2 (rows : list (list f32)).

Definition numbers (items : list mvalue) : option (list scalar) :=
  mapM (fun v => match v with MNum x => Some x | _ => None end) items.

Definition tuples (width : nat) (items : list mvalue) : option (list (list scalar)) :=
  mapM (fun v => match v with
                 | MTuple xs => if decide (length xs = width) then Some xs else None
                 | _ => None
                 end) items.

(** [torch.tensor(items, device=lm.device).to(torch.float32)] *)
Definition torch_tensor (items : list mvalue) : result tensor :=
  match items with
  | MTuple xs :: _ =>
      match tuples (length xs) items with
      | Some rows => Ok (Tensor2 ((fun row : list scalar => to_float32 <$> row) <$> rows))
      | None => Raise (ValueError "expected sequences of one length")
      end
  | _ =>
      match numbers items with
      | Some xs => Ok (Tensor1 (to_float32 <$> xs))
      | None => Raise (TypeError "not a sequence of numbers")
      end
  end.

Definition size0 (t : tensor) : nat :=
  match t with
  | Tensor1 xs => length xs
  | Tensor2 rows => length rows
  end.

(** [accelerator.pad_across_processes(t, pad_index=pad_value)]: the tensor
    grows along its first dimension to the largest size of any rank, the
    new entries filled with the padding value. *)
Definition pad_across_processes (max_size : nat) (t : tensor) : tensor :=
  match t with
  | Tensor1 xs => Tensor1 (xs ++ replicate (max_size - length xs) pad_value)
  | Tensor2 rows =>
      Tensor2 (rows ++ replicate (max_size - length rows)
                                 (replicate (length (default [] (head rows))) pad_value))
  end.

(** [accelerator.gather]: the ranks' tensors joined along the first
    dimension, rank 0 first. *)
Definition cat (ts : list tensor) : result tensor :=
  match ts with
  | [] => Ok (Tensor1 [])
  | Tensor1 _ :: _ =>
      xss ← mapM (fun t => match t with
                           | Tensor1 xs => Ok xs
                           | Tensor2 _ => Raise (ValueError "tensors of different dimensions")
                           end) ts;
      Ok (Tensor1 (mjoin xss))
  | Tensor2 _ :: _ =>
      rowss ← mapM (fun t => match t with
                             | Tensor2 rows => Ok rows
                             | Tensor1 _ => Raise (ValueError "tensors of different dimensions")
                             end) ts;
      Ok (Tensor2 (mjoin rowss))
  end.

(** Lines 551-559: dropping the padding and going back to Python values. *)
Definition unpad (numitem : nat) (original_dtype : dtype) (gathered : tensor)
  : result (list mvalue) :=
  match gathered with
  | Tensor1 xs =>
      if decide (0 < numitem)
      then Raise (IndexError "too many indices for tensor of dimension 1")
      else Ok ((fun x => MNum (to_dtype original_dtype x)) <$> filter (fun x => x ≠ pad_value) xs)
  | Tensor2 rows =>
      if decide (0 < numitem)
      then Ok ((fun row => MTuple (to_dtype original_dtype <$> row))
                 <$> filter (fun row => head row ≠ Some pad_value) rows)
      else Ok ((fun x => MNum (to_dtype original_dtype x))
                 <$> filter (fun x => x ≠ pad_value) (mjoin rows))
  end.

(** Lines 531-559 for one key: [items] is this rank's list, [all_items]
    the lists of all ranks in rank order. *)
Definition reduce_items (all_items : list (list mvalue)) (items : list mvalue)
  : result (list mvalue) :=
  match items with
  | [] => Raise (IndexError "list index out of range")
  | MObj _ :: _ => Ok (mjoin all_items)
  | first :: _ =>
      let numitem := match first with MTuple xs => length xs | _ => 0 end in
      _ ← torch_tensor items;
      let original_dtype := tensor_dtype items in
      tensors ← mapM torch_tensor all_items;
      gathered ← cat (pad_across_processes (max_list (size0 <$> tensors)) <$> tensors);
      unpad numitem original_dtype gathered
  end.

(** The local [vals] is not bound. *)
Definition vals_unbound (s : state) : Prop := vals s = None.

(** Lines 521-566.  [peers r] is the [vals] of rank [r].  The loop of
    lines 524-527 runs over [samples], still the empty dict of line 326.
    [vals] is read at line 530 and first assigned at line 564. *)
Definition reduce_phase (rank world_size : nat)
    (peers : nat -> dict (string * string * string) (list mvalue)) : M state unit :=
  if decide (1 < world_size) then
    s ← get;
    match vals s with
    | None => mthrow (UnboundLocalError "vals")
    | Some vals_ =>
        vals_torch ← fold_each vals_ [] (fun vals_torch '(k, items) =>
          let all_items :=
            gather world_size (fun r =>
              if decide (r = rank) then items else default [] (dict_get (peers r) k)) in
          gathered_item ← lift (reduce_items all_items items);
          mret (if decide (rank = 0) then dict_set vals_torch k gathered_item else vals_torch));
        modify (set_vals (Some vals_torch))
    end
  else mret tt.

(** ** [evaluate] *)

(** Lines 568-669 (the completion markers and the aggregation on rank 0)
    go through helpers that are imported from other modules; they are one
    computation here.  The consolidation of [higher_is_better] inside them
    is modelled below. *)
Context {results : Type} (finalize : M state results).

(** Lines 347-519: everything before the gather. *)
Definition before_gather (lm : LM) (eval_tasks : list TaskOutput) (log_samples : bool)
    (rank world_size : nat) : M state unit :=
  check_log_samples log_samples eval_tasks;;
  build_requests rank world_size eval_tasks;;
  dispatch lm world_size;;
  for_each (enumerate eval_tasks) (collect_task rank world_size log_samples).

Definition evaluate (lm : LM) (eval_tasks : list TaskOutput) (log_samples : bool)
    (rank world_size : nat)
    (peers : nat -> dict (string * string * string) (list mvalue)) : M state results :=
  before_gather lm eval_tasks log_samples rank world_size;;
  reduce_phase rank world_size peers;;
  finalize.

End Evaluator.

(** ** Lines 625-639: the polarity of the metrics of a group *)

Section Consolidation.

(** [True], [False] or [None]. *)
Definition polarity : Type := option bool.

(** A value of [higher_is_better]: a dict of its own, or the one object
    [_higher_is_better], which line 639 stores under every group. *)
Inductive entry : Type :=
  | Own (d : dict string polarity)
  | Shared.

Record hib_state : Type := mkHib {
  higher_is_better : dict string entry;
  _higher_is_better : dict string polarity;
  warnings : list (string * string);
}.

(** [consolidate_results], which builds [higher_is_better], is not in this
    file: [default_factory] says whether it is a [defaultdict(dict)], for
    which a missing key yields a new empty dict, or a plain dict, for which
    it raises. *)
Context (default_factory : bool).

Definition set_hib (f : dict string entry -> dict string entry) (s : hib_state) : hib_state :=
  mkHib (f (higher_is_better s)) (_higher_is_better s) (warnings s).
Definition set_acc (f : dict string polarity -> dict string polarity) (s : hib_state) : hib_state :=
  mkHib (higher_is_better s) (f (_higher_is_better s)) (warnings s).
Definition warn (m group : string) (s : hib_state) : hib_state :=
  mkHib (higher_is_better s) (_higher_is_better s) (warnings s ++ [(m, group)]).

(** [higher_is_better[task].items()].  When the value is the shared
    object, the loop below runs over it while assigning to it; every key
    it meets is present with the value it reads, so nothing changes and
    the items at the start are the items it sees. *)
Definition items_of (task_ : string) : M hib_state (dict string polarity) :=
  s ← get;
  match dict_get (higher_is_better s) task_ with
  | Some (Own d) => mret d
  | Some Shared => mret (_higher_is_better s)
  | None =>
      if default_factory
      then modify (set_hib (fun d => dict_set d task_ (Own [])));; mret []
      else mthrow (KeyError task_)
  end.

(** Lines 633-638. *)
Definition merge_metric (group : string) (item : string * polarity) : M hib_state unit :=
  let '(m, h) := item in
  s ← get;
  (match dict_get (_higher_is_better s) m with
   | None => modify (set_acc (fun d => dict_set d m h))
   | Some _ => mret tt
   end);;
  s ← get;
  match dict_get (_higher_is_better s) m with
  | Some (Some b) =>
      if decide (Some b ≠ h)
      then modify (warn m group);; modify (set_acc (fun d => dict_set d m None))
      else mret tt
  | _ => mret tt
  end.

(** Lines 629-639: one iteration of the loop over [subtask_list.items()]. *)
Definition consolidate_group (item : string * list string) : M hib_state unit :=
  let '(group, task_list) := item in
  if decide (length task_list ≠ 0) then
    for_each task_list (fun task_ =>
      items ← items_of task_;
      for_each items (merge_metric group));;
    modify (set_hib (fun d => dict_set d group Shared))
  else mret tt.

(** Lines 628-639. *)
Definition consolidate_higher_is_better (subtask_list : dict string (list string))
  : M hib_state unit :=
  modify (set_acc (fun _ => []));;
  for_each subtask_list consolidate_group.

(** [higher_is_better[name]] as a reader of the final result sees it. *)
Definition recorded (s : hib_state) (name : string) : option (dict string polarity) :=
  match dict_get (higher_is_better s) name with
  | Some (Own d) => Some d
  | Some Shared => Some (_higher_is_better s)
  | None => None
  end.

(** The names under which line 639 stores the shared object. *)
Definition is_group (subtask_list : dict string (list string)) (name : string) : Prop :=
  exists task_list, (name, task_list) ∈ subtask_list /\ task_list <> [].

(** How the accumulator's value for one metric changes over time: a key
    that is absent may get any value, [None] stays [None], and a boolean
    stays or becomes [None]. *)
Definition evolves (v v' : option polarity) : Prop :=
  match v with
  | None => True
  | Some None => v' = Some None
  | Some (Some b) => v' = Some (Some b) \/ v' = Some None
  end.

(** What every step of the consolidation keeps: the accumulator only
    evolves, a name that holds the shared object keeps it, the dict of a
    name that is no group stays as it is, and warnings are only added. *)
Definition advances (groups : string -> Prop) (s s' : hib_state) : Prop :=
  (forall m, evolves (dict_get (_higher_is_better s) m) (dict_get (_higher_is_better s') m)) /\
  (forall name, dict_get (higher_is_better s) name = Some Shared ->
                dict_get (higher_is_better s') name = Some Shared) /\
  (forall name d, ~ groups name ->
                  dict_get (higher_is_better s) name = Some (Own d) ->
                  dict_get (higher_is_better s') name = Some (Own d)) /\
  (forall name, is_Some (dict_get (higher_is_better s) name) ->
                is_Some (dict_get (higher_is_better s') name)) /\
  (exists more, warnings s' = warnings s ++ more).

End Consolidation.

(** ** The requests of a rank and the batches it submits *)

Section Batches.
Context {doc response scalar obj : Type}.
Context (get_sample_size : @Task doc response scalar obj -> option nat -> option nat).

(** The instances lines 401-403 go through on a rank, task after task, the
    limit threaded through the tasks as line 384 does. *)
Fixpoint built_instances (rank world_size : nat) (tasks : list (@TaskOutput doc response scalar obj))
    (limit_ : option nat) : list Instance :=
  match tasks with
  | [] => []
  | task_output :: rest =>
      let limit' := get_sample_size (task task_output) limit_ in
      build_all_requests (task task_output) limit' rank world_size
        ++ built_instances rank world_size rest limit'
  end.

(** The batch line 429 hands to the backend for a group. *)
Definition submitted (world_size : nat) (padding : gmap string nat)
    (group : string * list Instance) : string * list Instance :=
  (group.1, clone_reqs group.2 ++ pad_reqs world_size (padding !!! group.1) group.2).

End Batches.

(** ** Lines 649-658: the sample counts of a task *)

(** ["effective": min(limit if limit else len(eval_docs), len(eval_docs))];
    a limit of [None] or of 0 is false. *)
Definition effective_samples (limit_ : option nat) (original : nat) : nat :=
  Nat.min (match limit_ with
           | Some l => if decide (l = 0) then original else l
           | None => original
           end) original.

(** ** Small runs *)

Module Fixtures.

(** Two generation requests for documents 0 and 1, one sample each. *)
Definition inst0 : Instance := mkInstance 0 "generate_until" 0 0 1.
Definition inst1 : Instance := mkInstance 1 "generate_until" 1 0 1.

(** A backend that answers every request once, and one that returns a
    single response whatever the batch. *)
Definition answer_all : list Instance -> list string := fun batch => (fun _ => "r") <$> batch.
Definition answer_one : list Instance -> list string := fun _ => ["r"].
Definition lm_all : @LM string := fun _ => Some answer_all.
Definition lm_one : @LM string := fun _ => Some answer_one.

(** The state of a rank that owes one padding request for generation. *)
Definition owing_one : @state string nat string :=
  set_padding_requests (fun _ => {["generate_until" := 1]}) (initial_state None).

(** A task declared as generation whose requests are log-likelihood
    requests: two on rank 0 and one on every other rank. *)
Definition mixed_task : @Task nat string nat string :=
  mkTask "generate_until" None true [] [] true id
         (fun _ rank _ =>
            if decide (rank = 0)
            then [mkInstance 0 "loglikelihood" 0 0 1; mkInstance 1 "loglikelihood" 2 0 1]
            else [mkInstance 2 "loglikelihood" 1 0 1])
         (fun _ => []) (fun _ _ => []).

Definition keep_limit : @Task nat string nat string -> option nat -> option nat :=
  fun _ limit_ => limit_.

(** The task of the specification's scenario: three documents, one
    generation request per document of the rank's shard, a filter [none]
    that keeps the first response, and the metric [exact_match]. *)
Definition task_a : @Task nat string nat string :=
  mkTask "generate_until" (Some ["exact_match"]) true [10; 11; 12] [] true id
         (fun limit_ rank world_size =>
            (fun '(i, _) => mkInstance i "generate_until" i 0 1)
              <$> shard [10; 11; 12] rank limit_ world_size)
         (fun insts => (fun '(_, rs) => [("none", default "" (head rs))]) <$> insts)
         (fun _ filtered =>
            [("exact_match", MNum (if decide (filtered = ["r"]) then 1 else 0))]).

(** The steps of [evaluate] up to the collection of the metrics. *)
Definition run_until_collected (rank world_size : nat) : M (@state string nat string) unit :=
  build_requests keep_limit rank world_size [mkTaskOutput "a" task_a];;
  dispatch lm_all world_size;;
  for_each (enumerate [mkTaskOutput "a" task_a]) (collect_task rank world_size true).




(** [evaluate] with numbers that are their own float32 image, the padding
    value 0, a single element type, and nothing left to do after the
    gather. *)
Definition evaluate_with (lm : @LM string) (eval_tasks : list (@TaskOutput nat string nat string))
    (log_samples : bool) (rank world_size : nat) : M (@state string nat string) unit :=
  evaluate keep_limit (fun x : nat => x) 0 (fun _ => tt) (fun _ x => x) (mret tt)
           lm eval_tasks log_samples rank world_size (fun _ => []).

(** Two groups of two tasks each; in both, the tasks disagree on the
    polarity of [acc]. *)
Definition two_groups : dict string (list string) :=
  [("g1", ["a"; "b"]); ("g2", ["c"; "d"]);
   ("a", []); ("b", []); ("c", []); ("d", [])].

Definition disagreeing : hib_state :=
  mkHib [("a", Own [("acc", Some true)]); ("b", Own [("acc", Some false)]);
         ("c", Own [("acc", Some true)]); ("d", Own [("acc", Some false)])]
        [] [].

(** The same groups with tasks that all declare [acc] as higher is better,
    and with nothing declared at all. *)
Definition agreeing : hib_state :=
  mkHib [("a", Own [("acc", Some true)]); ("b", Own [("acc", Some true)]);
         ("c", Own [("acc", Some true)]); ("d", Own [("acc", Some true)])]
        [] [].

Definition nothing_declared : hib_state := mkHib [] [] [].

(** A log-likelihood request, and the states of a rank that holds the two
    generation requests, or one generation and one log-likelihood request. *)
Definition inst_ll : Instance := mkInstance 2 "loglikelihood" 1 0 1.

Definition holding_two : @state string nat string :=
  set_requests (fun _ => [("generate_until", [inst0; inst1])]) (initial_state None).

Definition holding_mixed : @state string nat string :=
  set_requests (fun _ => [("generate_until", [inst0]); ("loglikelihood", [inst_ll])])
               (initial_state None).

(** A backend that has [generate_until] and no other method. *)
Definition lm_generate : @LM string :=
  fun reqtype => if decide (reqtype = "generate_until") then Some answer_all else None.

(** A task with one document, at position 0, whose only request names
    document 5; its filter [none] keeps a constant and its metric function
    returns no metric.  [holding_stray] is a rank that has built it. *)
Definition stray_task : @Task nat string nat string :=
  mkTask "generate_until" None true [10] [] true id
         (fun _ _ _ => [mkInstance 0 "generate_until" 5 0 1])
         (fun insts => (fun _ => [("none", "r")]) <$> insts)
         (fun _ _ => []).

Definition holding_stray : @state string nat string :=
  set_instances (fun _ => {[0 := [mkInstance 0 "generate_until" 5 0 1]]}) (initial_state None).

End Fixtures.
Import Fixtures.

(** * Properties *)

(** ** Stride slicing *)

Section Sharding.
Context {A : Type}.
Implicit Types l : list A.

Lemma islice_from_lookup (step : nat) l : 0 < step ->
  forall skip j, islice_from skip step l !! j = l !! (skip + j * step).
Proof.
  intros Hstep. induction l as [|x l IH]; intros skip j; simpl.
  - done.
  - destruct skip as [|k].
    + destruct j as [|j]; simpl; [done|].
      replace (step + j * step) with (S (pred step + j * step)) by lia.
      simpl. apply IH.
    + apply IH.
Qed.

Lemma islice_from_sublist (step : nat) l skip : islice_from skip step l `sublist_of` l.
Proof.
  revert skip. induction l as [|x l IH]; intros skip; simpl; [done|].
  destruct skip; [apply sublist_skip | apply sublist_cons]; apply IH.
Qed.

Lemma enumerate_lookup l i : enumerate l !! i = (fun x => (i, x)) <$> l !! i.
Proof. unfold enumerate. apply list_lookup_imap. Qed.

Lemma enumerate_take l n : enumerate (take n l) = take n (enumerate l).
Proof.
  unfold enumerate. apply list_eq. intros i.
  rewrite list_lookup_imap. destruct (decide (i < n)).
  - rewrite !lookup_take_lt by done. by rewrite list_lookup_imap.
  - rewrite !lookup_take_ge by lia. done.
Qed.

Lemma enumerate_positions l : (enumerate l).*1 = seq 0 (length l).
Proof.
  apply list_eq. intros i. rewrite list_lookup_fmap, enumerate_lookup.
  destruct (l !! i) as [x|] eqn:Hi; simpl.
  - symmetry. apply lookup_seq. split; [done|]. by eapply lookup_lt_Some.
  - symmetry. apply lookup_seq_ge. by apply lookup_ge_None.
Qed.

Lemma enumerate_NoDup l : NoDup (enumerate l).
Proof. apply (NoDup_fmap_1 fst). rewrite enumerate_positions. apply NoDup_seq. Qed.

Lemma enumerate_elem l p x : (p, x) ∈ enumerate l <-> l !! p = Some x.
Proof.
  rewrite list_elem_of_lookup. split.
  - intros [i Hi]. rewrite enumerate_lookup in Hi.
    destruct (l !! i) eqn:E; simplify_eq/=. done.
  - intros Hp. exists p. rewrite enumerate_lookup, Hp. done.
Qed.

End Sharding.

Section Shards.
Context {doc : Type}.
Implicit Types docs : list doc.

Lemma doc_iterator_shard docs r limit_ W :
  0 < W -> doc_iterator docs r limit_ W = Ok (shard docs r limit_ W).
Proof.
  intros HW. unfold shard, doc_iterator, islice.
  destruct (decide (W = 0)); [lia|done].
Qed.

Lemma shard_islice docs r limit_ W :
  0 < W -> shard docs r limit_ W = islice_from r W (enumerate (truncated docs limit_)).
Proof.
  intros HW. unfold shard, doc_iterator, islice, truncated.
  destruct (decide (W = 0)); [lia|].
  destruct limit_; [by rewrite enumerate_take|done].
Qed.

(** A rank's shard holds exactly the documents of [docs[0:limit]] whose
    position is the rank plus a multiple of the world size. *)
Lemma shard_elem docs r limit_ W p d :
  0 < W ->
  (p, d) ∈ shard docs r limit_ W <->
  truncated docs limit_ !! p = Some d /\ exists j, p = r + j * W.
Proof.
  intros HW. rewrite shard_islice by done. rewrite list_elem_of_lookup. split.
  - intros [j Hj]. rewrite islice_from_lookup, enumerate_lookup in Hj by done.
    destruct (truncated docs limit_ !! (r + j * W)) eqn:E; simplify_eq/=. eauto.
  - intros [Hp [j ->]]. exists j.
    rewrite islice_from_lookup, enumerate_lookup, Hp by done. done.
Qed.

Lemma shard_NoDup docs r limit_ W : 0 < W -> NoDup (shard docs r limit_ W).
Proof.
  intros HW. rewrite shard_islice by done.
  eapply sublist_NoDup; [apply enumerate_NoDup | apply islice_from_sublist].
Qed.

Lemma shards_disjoint docs limit_ W r1 r2 x :
  0 < W -> r1 < W -> r2 < W ->
  x ∈ shard docs r1 limit_ W -> x ∈ shard docs r2 limit_ W -> r1 = r2.
Proof.
  intros HW H1 H2. destruct x as [p d].
  rewrite !shard_elem by done. intros [_ [j1 E1]] [_ [j2 E2]].
  assert (p `mod` W = r1) by (subst p; rewrite Nat.Div0.mod_add; by apply Nat.mod_small).
  assert (p `mod` W = r2) by (rewrite E2, Nat.Div0.mod_add; by apply Nat.mod_small).
  congruence.
Qed.

(** C6.  For a world size of at least one and any limit, every rank's
    document iterator succeeds, the shards of two different ranks share no
    document, and the shards of ranks 0..W-1 together are the documents
    [docs[0:limit]] with their positions, each position exactly once. *)
Theorem stride_shards_partition docs (limit_ : option nat) (W : nat) :
  1 <= W ->
  (forall r, r < W -> doc_iterator docs r limit_ W = Ok (shard docs r limit_ W)) /\
  (forall r1 r2, r1 < W -> r2 < W -> r1 <> r2 ->
     shard docs r1 limit_ W ## shard docs r2 limit_ W) /\
  (seq 0 W ≫= fun r => shard docs r limit_ W) ≡ₚ enumerate (truncated docs limit_) /\
  NoDup (seq 0 W ≫= fun r => shard docs r limit_ W).*1.
Proof.
  intros HW.
  assert (Hperm : (seq 0 W ≫= fun r => shard docs r limit_ W)
                  ≡ₚ enumerate (truncated docs limit_)).
  { apply NoDup_Permutation.
    - apply NoDup_bind; [|intros; apply shard_NoDup; lia|apply NoDup_seq].
      intros r1 r2 x Hr1%elem_of_seq Hr2%elem_of_seq. apply shards_disjoint; lia.
    - apply enumerate_NoDup.
    - intros [p d]. rewrite list_elem_of_bind, enumerate_elem. split.
      + intros (r & Hin & _). apply shard_elem in Hin; [tauto|lia].
      + intros Hp. exists (p `mod` W). split.
        * apply shard_elem; [lia|]. split; [done|]. exists (p `div` W).
          rewrite (Nat.div_mod_eq p W) at 1. lia.
        * apply elem_of_seq. split; [lia|]. simpl. apply Nat.mod_upper_bound. lia. }
  split_and!.
  - intros r _. apply doc_iterator_shard. lia.
  - intros r1 r2 H1 H2 Hne x Hx1 Hx2. apply Hne.
    apply (shards_disjoint docs limit_ W r1 r2 x); auto with lia.
  - done.
  - rewrite Hperm, enumerate_positions. apply NoDup_seq.
Qed.

End Shards.

(** Two ranks, three documents, no limit: rank 0 holds positions 0 and 2,
    rank 1 position 1. *)
Lemma stride_shards_partition_witness :
  1 <= 2 /\
  shard [10; 11; 12] 0 None 2 = [(0, 10); (2, 12)] /\
  shard [10; 11; 12] 1 None 2 = [(1, 11)] /\
  (seq 0 2 ≫= fun r => shard [10; 11; 12] r None 2) ≡ₚ enumerate (truncated [10; 11; 12] None).
Proof.
  split; [lia|]. split; [reflexivity|]. split; [reflexivity|].
  apply (stride_shards_partition [10; 11; 12] None 2). lia.
Defined.

(** ** The guard on sample logging *)

Section Guard.
Context {doc response scalar f32 dtype obj results : Type} `{EqDecision f32}.
Context (get_sample_size : @Task doc response scalar obj -> option nat -> option nat).
Context (to_float32 : scalar -> f32) (pad_value : f32).
Context (tensor_dtype : list (@mvalue scalar obj) -> dtype) (to_dtype : dtype -> f32 -> scalar).
Context (finalize : M (@state response scalar obj) results).



End Guard.


(** ** Running computations *)

Section Running.
Context {S : Type}.

Lemma run_bind {A B} (c : M S A) (k : A -> M S B) (s : S) :
  (c ≫= k) s = match c s with
               | (s', Ok a) => k a s'
               | (s', Raise e) => (s', Raise e)
               end.
Proof. reflexivity. Qed.

Lemma run_for_each_cons {A} (x : A) (l : list A) (body : A -> M S unit) (s : S) :
  for_each (x :: l) body s = match body x s with
                             | (s', Ok _) => for_each l body s'
                             | (s', Raise e) => (s', Raise e)
                             end.
Proof. reflexivity. Qed.

(** A loop whose body cannot raise runs to its end. *)
Lemma run_for_each_total {A} (l : list A) (body : A -> M S unit) (f : A -> S -> S) :
  (forall x s, body x s = (f x s, Ok tt)) ->
  forall s, for_each l body s = (foldl (fun s x => f x s) s l, Ok tt).
Proof.
  intros Hbody. induction l as [|x l IH]; intros s; [done|].
  rewrite run_for_each_cons, Hbody. apply IH.
Qed.

(** A loop whose iterations end normally under an invariant that they keep
    ends normally. *)
Lemma for_each_ok {A} (I : S -> Prop) (l : list A) (body : A -> M S unit) :
  (forall x s, x ∈ l -> I s -> exists s', body x s = (s', Ok tt) /\ I s') ->
  forall s, I s -> exists s', for_each l body s = (s', Ok tt) /\ I s'.
Proof.
  induction l as [|x l IH]; intros Hbody s Hs.
  - by exists s.
  - destruct (Hbody x s ltac:(by left) Hs) as (s1 & Hx & Hs1).
    destruct (IH ltac:(intros y ? Hy; apply Hbody; by right) s1 Hs1) as (s2 & Hl & Hs2).
    exists s2. split; [|done]. by rewrite run_for_each_cons, Hx.
Qed.

(** A relation between the states before and after every iteration holds
    between the states before and after the loop, however it ends. *)
Lemma for_each_rel {A} (R : relation S) `{!Reflexive R, !Transitive R}
    (l : list A) (body : A -> M S unit) :
  (forall x s s' r, x ∈ l -> body x s = (s', r) -> R s s') ->
  forall s s' r, for_each l body s = (s', r) -> R s s'.
Proof.
  induction l as [|x l IH]; intros Hbody s s' r Hrun.
  - change ((s, Ok tt) = (s', r)) in Hrun. by simplify_eq.
  - rewrite run_for_each_cons in Hrun.
    destruct (body x s) as [s1 [[]|e]] eqn:Hx.
    + transitivity s1.
      * eapply Hbody; [by left|done].
      * eapply IH; [|done]. intros y ? ? ? Hy. apply Hbody. by right.
    + simplify_eq. eapply Hbody; [by left|done].
Qed.

(** A loop that ends normally has run the iteration of each of its
    elements, normally. *)
Lemma for_each_split {A} (R : relation S) `{!Reflexive R, !Transitive R}
    (l : list A) (body : A -> M S unit) x s s' :
  (forall y s s' r, y ∈ l -> body y s = (s', r) -> R s s') ->
  x ∈ l -> for_each l body s = (s', Ok tt) ->
  exists s1 s2, R s s1 /\ body x s1 = (s2, Ok tt) /\ R s2 s'.
Proof.
  intros Hbody Hin. revert s. induction l as [|y l IH]; intros s Hrun.
  - by apply elem_of_nil in Hin.
  - rewrite run_for_each_cons in Hrun.
    destruct (body y s) as [sa [[]|e]] eqn:Hy; [|by simplify_eq].
    assert (Hrest : forall z s s' r, z ∈ l -> body z s = (s', r) -> R s s').
    { intros z ? ? ? Hz. apply Hbody. by right. }
    apply elem_of_cons in Hin. destruct Hin as [->|Hin].
    + exists s, sa. split_and!; [done|done|]. by eapply (for_each_rel R l body).
    + destruct (IH Hrest Hin sa Hrun) as (s1 & s2 & H1 & H2 & H3).
      exists s1, s2. split_and!; [|done|done].
      transitivity sa; [|done]. eapply Hbody; [by left|done].
Qed.

End Running.

(** ** Dispatch *)

Section Dispatch.
Context {response scalar obj : Type}.
Abbreviation state := (@state response scalar obj).
Implicit Types (s : state) (reqs cloned : list Instance) (out : list response).

Lemma write_back_spec out cloned s :
  exists h', write_back out cloned s = (set_resps (fun _ => h') s, Ok tt) /\
             forall l, h' !!! l = resps s !!! l ++ responses_for l out cloned.
Proof.
  unfold write_back, responses_for.
  generalize (zip out cloned) as pairs. intros pairs. revert s.
  induction pairs as [|[x req] pairs IH]; intros s.
  - exists (resps s). split; [by destruct s|]. intros l. by rewrite app_nil_r.
  - destruct (IH (set_resps (fun h => <[oid req := h !!! oid req ++ [x]]> h) s)) as (h' & Hrun & Hh').
    exists h'. split.
    + rewrite run_for_each_cons. unfold modify at 1. rewrite Hrun. by destruct s.
    + intros l. rewrite Hh'. rewrite filter_cons. simpl.
      destruct (decide (oid req = l)) as [->|Hne].
      * rewrite lookup_total_insert_eq. simpl. by rewrite <- app_assoc.
      * by rewrite lookup_total_insert_ne.
Qed.

(** A group whose request type the backend serves always runs to its end:
    the batch is logged, and every response is appended to the object of
    the copy at its position, up to the shorter of the two lists. *)
Lemma dispatch_group_spec (lm : LM) W reqtype reqs run s :
  lm reqtype = Some run ->
  let cloned := clone_reqs reqs ++ pad_reqs W (padding_requests s !!! reqtype) reqs in
  exists h',
    dispatch_group lm W (reqtype, reqs) s
    = (set_resps (fun _ => h') (set_lm_calls (fun c => c ++ [(reqtype, cloned)]) s), Ok tt) /\
    forall l, h' !!! l = resps s !!! l ++ responses_for l (run cloned) cloned.
Proof.
  intros Hlm cloned. unfold dispatch_group. rewrite run_bind. unfold get at 1.
  fold cloned. rewrite Hlm, run_bind. unfold modify at 1.
  destruct (write_back_spec (run cloned) cloned
              (set_lm_calls (fun c => c ++ [(reqtype, cloned)]) s)) as (h' & Hrun & Hh').
  exists h'. split; [exact Hrun|]. intros l. rewrite Hh'. by destruct s.
Qed.

Lemma responses_for_length l out cloned :
  length out = length cloned ->
  length (responses_for l out cloned) = length (filter (fun r => oid r = l) cloned).
Proof.
  unfold responses_for. rewrite length_fmap. revert out.
  induction cloned as [|r cloned IH]; intros [|x out] Hlen; simplify_eq/=; [done|].
  rewrite !filter_cons. simpl. destruct (decide (oid r = l)); simpl; auto.
Qed.

Lemma filter_replicate_oid l n (r : Instance) :
  filter (fun r => oid r = l) (replicate n r) = if decide (oid r = l) then replicate n r else [].
Proof.
  induction n as [|n IH]; simpl; [by destruct (decide _)|].
  rewrite filter_cons, IH. by destruct (decide (oid r = l)).
Qed.

Lemma clone_reqs_cons (r : Instance) reqs :
  clone_reqs (r :: reqs) = replicate (repeats r) r ++ clone_reqs reqs.
Proof. reflexivity. Qed.

Lemma clone_reqs_other l reqs :
  l ∉ oid <$> reqs -> filter (fun r => oid r = l) (clone_reqs reqs) = [].
Proof.
  induction reqs as [|r reqs IH]; intros Hl; [done|].
  rewrite clone_reqs_cons, filter_app, filter_replicate_oid.
  rewrite fmap_cons, not_elem_of_cons in Hl. destruct Hl as [Hne Hl].
  destruct (decide (oid r = l)); [congruence|]. by rewrite IH.
Qed.

(** Without padding every object is submitted [repeats] times. *)
Lemma clone_reqs_count (req : Instance) reqs :
  NoDup (oid <$> reqs) -> req ∈ reqs ->
  length (filter (fun r => oid r = oid req) (clone_reqs reqs)) = repeats req.
Proof.
  induction reqs as [|r reqs IH]; intros Hnd Hin; [by apply elem_of_nil in Hin|].
  rewrite fmap_cons, NoDup_cons in Hnd. destruct Hnd as [Hr Hnd].
  rewrite clone_reqs_cons, filter_app, length_app, filter_replicate_oid.
  apply elem_of_cons in Hin. destruct Hin as [->|Hin].
  - rewrite decide_True by done. rewrite clone_reqs_other by done.
    rewrite length_replicate. simpl. lia.
  - rewrite decide_False.
    + simpl. by apply IH.
    + intros Heq. apply Hr. rewrite Heq. by apply list_elem_of_fmap_2.
Qed.

Lemma pad_reqs_count W n (req : Instance) reqs l :
  1 < W -> last reqs = Some req ->
  length (filter (fun r => oid r = l) (pad_reqs W n reqs))
  = if decide (oid req = l) then n * repeats req else 0.
Proof.
  intros HW Hlast. unfold pad_reqs. rewrite Hlast.
  destruct (decide (1 < W ∧ 0 < n)) as [[_ Hn]|Hn].
  - clear Hn. induction n as [|n IH]; simpl; [by destruct (decide _)|].
    rewrite filter_app, length_app, IH, filter_replicate_oid.
    destruct (decide (oid req = l)); [by rewrite length_replicate|done].
  - assert (n = 0) as -> by lia. by destruct (decide _).
Qed.

(** C5, as the code has it.  A group whose request type the backend serves
    is never aborted for the number of responses: the run ends normally,
    the batch is logged, and the responses are appended to the objects of
    the copies at the same positions, as far as the shorter of the two
    lists reaches. *)
Theorem dispatch_pairs_up_to_shorter (lm : LM) W reqtype reqs run s :
  lm reqtype = Some run ->
  let cloned := clone_reqs reqs ++ pad_reqs W (padding_requests s !!! reqtype) reqs in
  exists s',
    dispatch_group lm W (reqtype, reqs) s = (s', Ok tt) /\
    lm_calls s' = lm_calls s ++ [(reqtype, cloned)] /\
    forall l, resps s' !!! l = resps s !!! l ++ responses_for l (run cloned) cloned.
Proof.
  intros Hlm cloned.
  destruct (dispatch_group_spec lm W reqtype reqs run s Hlm) as (h' & Hrun & Hh').
  eexists. split; [exact Hrun|]. split; [done|]. exact Hh'.
Qed.

(** C4, where the code departs from it.  On a rank of a world of several,
    with a backend that answers every submitted copy, the last request of
    a group receives the responses of its own copies and of all padding
    copies: [repeats * (1 + padding)] of them. *)
Theorem padding_responses_reach_last_instance (lm : LM) W reqtype reqs run s req :
  1 < W ->
  lm reqtype = Some run ->
  (forall batch, length (run batch) = length batch) ->
  NoDup (oid <$> reqs) ->
  last reqs = Some req ->
  length (resps (dispatch_group lm W (reqtype, reqs) s).1 !!! oid req)
  = length (resps s !!! oid req) + repeats req * (1 + padding_requests s !!! reqtype).
Proof.
  intros HW Hlm Hlen Hnd Hlast.
  destruct (dispatch_group_spec lm W reqtype reqs run s Hlm) as (h' & Hrun & Hh').
  rewrite Hrun. simpl. rewrite Hh', length_app, responses_for_length by apply Hlen.
  rewrite filter_app, length_app, clone_reqs_count, (pad_reqs_count W _ req) by
    (done || by eapply last_Some_elem_of).
  rewrite decide_True by done. lia.
Qed.

(** Where nothing is appended for padding, every request of the group has
    received [repeats] responses. *)
Lemma dispatch_without_padding (lm : LM) W reqtype reqs run s req :
  lm reqtype = Some run ->
  (forall batch, length (run batch) = length batch) ->
  NoDup (oid <$> reqs) ->
  req ∈ reqs ->
  pad_reqs W (padding_requests s !!! reqtype) reqs = [] ->
  length (resps (dispatch_group lm W (reqtype, reqs) s).1 !!! oid req)
  = length (resps s !!! oid req) + repeats req.
Proof.
  intros Hlm Hlen Hnd Hin Hpad.
  destruct (dispatch_group_spec lm W reqtype reqs run s Hlm) as (h' & Hrun & Hh').
  rewrite Hrun. simpl. rewrite Hh', length_app, responses_for_length by apply Hlen.
  rewrite Hpad, app_nil_r, clone_reqs_count by done. done.
Qed.

End Dispatch.


Lemma dispatch_pairs_up_to_shorter_witness :
  exists s' : @state string nat string,
    dispatch_group lm_one 1 ("generate_until", [inst0; inst1])
      (@initial_state string nat string None) = (s', Ok tt) /\
    lm_calls s' = [("generate_until", [inst0; inst1])] /\
    forall l, resps s' !!! l = resps (@initial_state string nat string None) !!! l
                ++ responses_for l (answer_one [inst0; inst1]) [inst0; inst1].
Proof.
  apply (dispatch_pairs_up_to_shorter lm_one 1 "generate_until" [inst0; inst1] answer_one
           (@initial_state string nat string None)).
  reflexivity.
Defined.

(** C5 as stated fails: the backend returns one response for a batch of
    two, and the group ends normally, the second request left without a
    response. *)
Lemma short_batch_is_accepted :
  let cloned := clone_reqs [inst0; inst1] ++ pad_reqs 1 0 [inst0; inst1] in
  length (answer_one cloned) <> length cloned /\
  (dispatch_group lm_one 1 ("generate_until", [inst0; inst1])
     (@initial_state string nat string None)).2 = Ok tt /\
  resps (dispatch_group lm_one 1 ("generate_until", [inst0; inst1])
           (@initial_state string nat string None)).1 !!! 1 = [].
Proof. split; [simpl; lia|]. split; reflexivity. Defined.

Lemma padding_responses_reach_last_instance_witness :
  1 < 2 /\
  length (resps (dispatch_group lm_all 2 ("generate_until", [inst0]) owing_one).1 !!! oid inst0)
  = length (resps owing_one !!! oid inst0)
    + repeats inst0 * (1 + padding_requests owing_one !!! "generate_until").
Proof.
  split; [lia|].
  apply (padding_responses_reach_last_instance lm_all 2 "generate_until" [inst0] answer_all
           owing_one inst0).
  - lia.
  - reflexivity.
  - intros batch. apply length_fmap.
  - apply NoDup_singleton.
  - reflexivity.
Defined.

(** C4 as stated fails on that rank: the request asks for one sample and
    holds two responses after dispatch. *)
Example padded_rank_two_responses :
  repeats inst0 = 1 /\
  resps (dispatch_group lm_all 2 ("generate_until", [inst0]) owing_one).1 !!! oid inst0
  = ["r"; "r"].
Proof. split; reflexivity. Qed.

(** ** The padding ledger *)

Section Dicts.
Context {K V : Type} `{EqDecision K}.

Lemma dict_get_set (d : dict K V) k v k' :
  dict_get (dict_set d k v) k' = if decide (k = k') then Some v else dict_get d k'.
Proof.
  induction d as [|[k0 v0] d IH]; simpl.
  - done.
  - destruct (decide (k0 = k)) as [->|Hne]; simpl.
    + by destruct (decide (k = k')).
    + rewrite IH. destruct (decide (k0 = k')) as [->|]; [|done].
      by rewrite decide_False by congruence.
Qed.

End Dicts.

Section Ledger.
Context {doc response scalar obj : Type}.
Context (get_sample_size : @Task doc response scalar obj -> option nat -> option nat).
Abbreviation state := (@state response scalar obj).
Implicit Types (s : state) (t : @Task doc response scalar obj).

Lemma gathered_counts_lookup t limit_ W r :
  r < W -> gathered_counts t limit_ W !! r = Some (length (build_all_requests t limit_ r W)).
Proof.
  intros Hr. unfold gathered_counts, gather.
  rewrite list_lookup_fmap, lookup_seq_lt by done. done.
Qed.

Lemma own_count_le_max (g : list nat) r n : g !! r = Some n -> n <= max_list g.
Proof.
  intros Hr. apply max_list_elem_of_le. by eapply list_elem_of_lookup_2.
Qed.

Lemma append_requests insts s :
  let s' := foldl (fun s instance =>
              set_requests (fun r => dict_append r (request_type instance) instance) s) s insts in
  limit s' = limit s /\ padding_requests s' = padding_requests s /\
  forall q, local_count s' q
            = local_count s q + length (filter (fun i => request_type i = q) insts).
Proof.
  revert s. induction insts as [|inst insts IH]; intros s; simpl.
  - split_and!; [done..|]. intros q. by rewrite Nat.add_0_r.
  - destruct (IH (set_requests (fun r => dict_append r (request_type inst) inst) s))
      as (Hl & Hp & Hc).
    split_and!; [by rewrite Hl|by rewrite Hp|]. intros q. rewrite Hc, filter_cons.
    unfold local_count, dict_append. simpl. rewrite dict_get_set.
    destruct (decide (request_type inst = q)) as [->|Hne]; simpl; [|done].
    rewrite length_app. simpl. lia.
Qed.

Lemma build_task_run rank W i (task_output : TaskOutput) s :
  rank < W ->
  let t := task task_output in
  let limit' := get_sample_size t (limit s) in
  let insts := build_all_requests t limit' rank W in
  exists s',
    build_task get_sample_size rank W (i, task_output) s = (s', Ok tt) /\
    limit s' = limit' /\
    (forall q, padding_requests s' !!! q
               = padding_requests s !!! q
                 + if decide (1 < W /\ ledger_key t = q)
                   then max_list (gathered_counts t limit' W) - length insts else 0) /\
    (forall q, local_count s' q
               = local_count s q + length (filter (fun i => request_type i = q) insts)).
Proof.
  intros Hr t limit' insts.
  destruct (append_requests insts (set_instances <[i:=insts]> (set_limit limit' s)))
    as (Hl & Hp & Hc).
  unfold build_task. fold t. rewrite run_bind. unfold get at 1. cbv beta iota. fold limit'.
  rewrite run_bind. unfold modify at 1. cbv beta iota.
  rewrite run_bind. unfold modify at 1. cbv beta iota. fold insts.
  rewrite run_bind.
  rewrite (run_for_each_total insts _
    (fun instance => set_requests (fun r => dict_append r (request_type instance) instance)))
    by done.
  cbv beta iota.
  destruct (decide (1 < W)) as [HW|HW].
  - rewrite run_bind. unfold numpad.
    rewrite gathered_counts_lookup by done. fold insts.
    eexists. split; [reflexivity|]. simpl. split_and!.
    + by rewrite Hl.
    + intros q. rewrite Hp. simpl.
      destruct (decide (ledger_key t = q)) as [->|Hne].
      * rewrite lookup_total_insert_eq, decide_True by done. done.
      * rewrite lookup_total_insert_ne, decide_False by tauto. lia.
    + intros q. specialize (Hc q). unfold local_count in *. simpl in *. exact Hc.
  - eexists. split; [reflexivity|]. simpl. split_and!.
    + by rewrite Hl.
    + intros q. rewrite Hp, decide_False by tauto. simpl. lia.
    + intros q. specialize (Hc q). unfold local_count in *. simpl in *. exact Hc.
Qed.

Lemma ledger_sum_add (f1 f2 f3 : list nat -> nat) W tasks limit_ q :
  (forall g, f1 g + f2 g = f3 g) ->
  ledger_sum get_sample_size f1 W tasks limit_ q + ledger_sum get_sample_size f2 W tasks limit_ q
  = ledger_sum get_sample_size f3 W tasks limit_ q.
Proof.
  intros Hf. revert limit_. induction tasks as [|task_output tasks IH]; intros limit_; simpl.
  - done.
  - rewrite <- IH. destruct (decide _); [rewrite <- Hf|]; lia.
Qed.


(** The loop over the tasks runs to its end on every rank; the ledger entry
    of a request type is the sum of [max - own] over the tasks booked
    under it, and the requests held are those the tasks built. *)
Lemma build_entries_run rank W (entries : list (nat * TaskOutput)) s :
  rank < W ->
  exists s',
    for_each entries (build_task get_sample_size rank W) s = (s', Ok tt) /\
    (forall q, padding_requests s' !!! q
               = padding_requests s !!! q
                 + if decide (1 < W)
                   then ledger_sum get_sample_size
                          (fun g => max_list g - default 0 (g !! rank)) W entries.*2 (limit s) q
                   else 0) /\
    ((forall task_output limit_ r inst,
        task_output ∈ entries.*2 ->
        inst ∈ build_all_requests (task task_output) limit_ r W ->
        request_type inst = ledger_key (task task_output)) ->
     forall q, local_count s' q
               = local_count s q
                 + ledger_sum get_sample_size (fun g => default 0 (g !! rank)) W
                              entries.*2 (limit s) q).
Proof.
  intros Hr. revert s. induction entries as [|[i task_output] entries IH]; intros s.
  - exists s. split; [done|]. split.
    + intros q. simpl. destruct (decide _); lia.
    + intros _ q. simpl. lia.
  - destruct (build_task_run rank W i task_output s Hr) as (s1 & Hrun1 & Hl1 & Hp1 & Hc1).
    destruct (IH s1) as (s2 & Hrun2 & Hp2 & Hc2).
    exists s2. split; [by rewrite run_for_each_cons, Hrun1|]. split.
    + intros q. rewrite Hp2, Hp1, Hl1, fmap_cons. cbn [ledger_sum snd].
      rewrite gathered_counts_lookup by done. cbn [default from_option id].
      destruct (decide (1 < W)), (decide (ledger_key (task task_output) = q));
        rewrite ?decide_True, ?decide_False by tauto; lia.
    + intros Htyped q. rewrite Hc2, Hc1, Hl1.
      2:{ intros ? ? ? ? Hin. apply Htyped. rewrite fmap_cons. by apply elem_of_cons; right. }
      rewrite fmap_cons. cbn [ledger_sum snd].
      rewrite gathered_counts_lookup by done. cbn [default from_option id].
      assert (Hfilter : forall insts : list Instance,
                (forall inst, inst ∈ insts -> request_type inst = ledger_key (task task_output)) ->
                length (filter (fun i => request_type i = q) insts)
                = if decide (ledger_key (task task_output) = q) then length insts else 0).
      { clear. intros insts Hall. induction insts as [|inst insts IH]; [by destruct (decide _)|].
        rewrite filter_cons.
        pose proof (Hall inst ltac:(by apply elem_of_cons; left)) as Hinst.
        specialize (IH ltac:(intros; apply Hall; by apply elem_of_cons; right)).
        destruct (decide (request_type inst = q)), (decide (ledger_key (task task_output) = q));
          simpl; congruence. }
      rewrite Hfilter; [lia|].
      intros inst Hin. eapply Htyped; [|exact Hin]. rewrite fmap_cons. by apply elem_of_cons; left.
Qed.


End Ledger.



(** Line 412 leaves open a task whose requests are of another type than
    the one it is booked under: in a world of two, rank 1 holds one
    log-likelihood request and owes no padding for that type, while the
    largest count is two; what it issues differs from what rank 0 issues. *)
Example ledger_misses_other_request_types :
  let on_rank r :=
    (build_requests Fixtures.keep_limit r 2 [mkTaskOutput "mixed" Fixtures.mixed_task]
       (initial_state None)).1 in
  padding_requests (on_rank 1) !!! "loglikelihood" = 0 /\
  max_list [local_count (on_rank 0) "loglikelihood"; local_count (on_rank 1) "loglikelihood"]
    - local_count (on_rank 1) "loglikelihood" = 1 /\
  local_count (on_rank 0) "loglikelihood" + padding_requests (on_rank 0) !!! "loglikelihood" = 2 /\
  local_count (on_rank 1) "loglikelihood" + padding_requests (on_rank 1) !!! "loglikelihood" = 1.
Proof. vm_compute. repeat split; reflexivity. Qed.

(** ** Grouping and ordering of the instances *)

Section Sorting.
Context {A : Type} (key : A -> nat).
Implicit Types l : list A.

Lemma insert_by_perm x l : insert_by key x l ≡ₚ x :: l.
Proof.
  induction l as [|y l IH]; simpl; [done|].
  destruct (decide (key x <= key y)); [done|].
  rewrite IH. apply Permutation_swap.
Qed.

Lemma sort_by_perm l : sort_by key l ≡ₚ l.
Proof.
  induction l as [|x l IH]; simpl; [done|].
  fold (sort_by key l). by rewrite insert_by_perm, IH.
Qed.

Lemma insert_by_sorted x l :
  StronglySorted (fun a b => key a <= key b) l ->
  StronglySorted (fun a b => key a <= key b) (insert_by key x l).
Proof.
  induction 1 as [|y l Hs IH Hy]; simpl.
  - repeat constructor.
  - destruct (decide (key x <= key y)) as [Hle|Hgt].
    + constructor; [by constructor|]. constructor; [done|].
      eapply Forall_impl; [exact Hy|]. simpl. intros. lia.
    + constructor; [done|]. rewrite insert_by_perm. constructor; [lia|done].
Qed.

Lemma sort_by_sorted l : StronglySorted (fun a b => key a <= key b) (sort_by key l).
Proof.
  induction l as [|x l IH]; simpl; [constructor|]. by apply insert_by_sorted.
Qed.

(** Stability: elements with one key keep the order they came in. *)
Lemma insert_by_stable k x l :
  filter (fun a => key a = k) (insert_by key x l) = filter (fun a => key a = k) (x :: l).
Proof.
  induction l as [|y l IH]; simpl; [done|].
  destruct (decide (key x <= key y)) as [Hle|Hgt]; [done|].
  rewrite filter_cons, IH, !filter_cons.
  destruct (decide (key y = k)), (decide (key x = k)); try done. lia.
Qed.

Lemma sort_by_stable k l :
  filter (fun a => key a = k) (sort_by key l) = filter (fun a => key a = k) l.
Proof.
  induction l as [|x l IH]; simpl; [done|].
  fold (sort_by key l). by rewrite insert_by_stable, !filter_cons, IH.
Qed.

End Sorting.

Section Grouping.
Implicit Types insts : list Instance.

Lemma group_by_doc_id_lookup insts d :
  group_by_doc_id insts !!! d = filter (fun i => doc_id i = d) insts.
Proof.
  unfold group_by_doc_id.
  assert (Hgen : forall m : gmap nat (list Instance),
            foldl (fun m instance => <[doc_id instance := m !!! doc_id instance ++ [instance]]> m)
                  m insts !!! d
            = m !!! d ++ filter (fun i => doc_id i = d) insts).
  { induction insts as [|inst insts IH]; intros m; simpl.
    - by rewrite app_nil_r.
    - rewrite IH, filter_cons. destruct (decide (doc_id inst = d)) as [->|Hne].
      + rewrite lookup_total_insert_eq. by rewrite <- app_assoc.
      + by rewrite lookup_total_insert_ne. }
  rewrite Hgen. by rewrite lookup_total_empty.
Qed.

Lemma instances_by_doc_id_lookup insts d :
  instances_by_doc_id insts !!! d = sort_by idx (filter (fun i => doc_id i = d) insts).
Proof.
  unfold instances_by_doc_id. rewrite <- group_by_doc_id_lookup.
  rewrite !lookup_total_alt, lookup_fmap. by destruct (group_by_doc_id insts !! d).
Qed.

(** The group of a document holds the instances of that document, in
    ascending order of [idx], instances of equal [idx] in the order of
    [task.instances]. *)
Lemma instances_by_doc_id_ordered insts d :
  instances_by_doc_id insts !!! d ≡ₚ filter (fun i => doc_id i = d) insts /\
  StronglySorted (fun a b => idx a <= idx b) (instances_by_doc_id insts !!! d) /\
  forall k, filter (fun i => idx i = k) (instances_by_doc_id insts !!! d)
            = filter (fun i => idx i = k) (filter (fun i => doc_id i = d) insts).
Proof.
  rewrite instances_by_doc_id_lookup. split_and!.
  - apply sort_by_perm.
  - apply sort_by_sorted.
  - intros k. apply sort_by_stable.
Qed.

End Grouping.

(** ** Collecting the metrics *)

Section Collect.
Context {doc response scalar obj : Type}.
Abbreviation state := (@state response scalar obj).
Implicit Types (s : state) (t : @Task doc response scalar obj).

Lemma filter_key_unbound s : load_global "filter_key" s = (s, Raise (NameError "filter_key")).
Proof. reflexivity. Qed.

Lemma filtered_resps_of_raises (req : Instance) rest s :
  filtered_resps_of (req :: rest) s = (s, Raise (NameError "filter_key")).
Proof. reflexivity. Qed.

(** C7, where the code departs from it.  For a document that has at least
    one instance, building the argument of the metric function reads
    [filter_key], which nothing binds: the loop body raises [NameError]
    before [process_results] is called, and the state is untouched. *)
Theorem metric_arguments_raise_name_error t i log_samples
    (by_doc : gmap nat (list Instance)) d (doc_ : doc) s :
  by_doc !!! d <> [] ->
  collect_doc t i log_samples by_doc (d, doc_) s = (s, Raise (NameError "filter_key")).
Proof.
  intros Hne. unfold collect_doc. destruct (by_doc !!! d) as [|req rest]; [done|].
  rewrite run_bind. by rewrite filtered_resps_of_raises.
Qed.

End Collect.

Lemma metric_arguments_raise_name_error_witness :
  instances_by_doc_id [inst0; inst1] !!! 0 <> [] /\
  collect_doc Fixtures.task_a 0 true (instances_by_doc_id [inst0; inst1]) (0, 10)
              (initial_state None)
  = (initial_state None, Raise (NameError "filter_key")).
Proof.
  assert (Hne : instances_by_doc_id [inst0; inst1] !!! 0 <> []) by (vm_compute; discriminate).
  split; [exact Hne|].
  exact (metric_arguments_raise_name_error Fixtures.task_a 0 true
           (instances_by_doc_id [inst0; inst1]) 0 10 (initial_state None) Hne).
Defined.

(** The scenario of the specification, one rank: the requests are built
    and answered, and the collection stops at the first document. *)
Example scenario_stops_at_first_document :
  (Fixtures.run_until_collected 0 1 (initial_state None)).2 = Raise (NameError "filter_key").
Proof. vm_compute. reflexivity. Qed.

(** ** What the steps before the gather leave alone *)

Section Preservation.
Context {S : Type} (P : S -> Prop).

Lemma preserves_ret {A} (a : A) : preserves P (mret a : M S A).
Proof. by intros s. Qed.

Lemma preserves_throw {A} (e : exn) : preserves P (mthrow e : M S A).
Proof. by intros s. Qed.

Lemma preserves_get : preserves P (get : M S S).
Proof. by intros s. Qed.

Lemma preserves_lift {A} (r : result A) : preserves P (lift r : M S A).
Proof. by intros s. Qed.

Lemma preserves_modify (f : S -> S) : (forall s, P s -> P (f s)) -> preserves P (modify f).
Proof. intros Hf s Hs. by apply Hf. Qed.

Lemma preserves_bind {A B} (c : M S A) (k : A -> M S B) :
  preserves P c -> (forall a, preserves P (k a)) -> preserves P (c ≫= k).
Proof.
  intros Hc Hk s Hs. rewrite run_bind. specialize (Hc s Hs).
  destruct (c s) as [s' [a|e]]; simpl in *; [by apply Hk|done].
Qed.

Lemma preserves_for_each {A} (l : list A) (body : A -> M S unit) :
  (forall x, preserves P (body x)) -> preserves P (for_each l body).
Proof.
  intros Hbody. induction l as [|x l IH]; simpl.
  - apply preserves_ret.
  - apply preserves_bind; [apply Hbody|]. intros _. apply IH.
Qed.

Lemma preserves_comprehension {A B} (f : A -> M S B) (l : list A) :
  (forall x, preserves P (f x)) -> preserves P (comprehension f l).
Proof.
  intros Hf. induction l as [|x l IH]; simpl.
  - apply preserves_ret.
  - apply preserves_bind; [apply Hf|]. intros y.
    apply preserves_bind; [apply IH|]. intros ys. apply preserves_ret.
Qed.

Lemma preserves_load_global x : preserves P (load_global x : M S pyobj).
Proof. unfold load_global. destruct (dict_get _ _); [apply preserves_ret|apply preserves_throw]. Qed.

Lemma preserves_subscript {V} (d : dict string V) k : preserves P (subscript d k : M S V).
Proof.
  unfold subscript. destruct k; try apply preserves_throw.
  destruct (dict_get _ _); [apply preserves_ret|apply preserves_throw].
Qed.

End Preservation.

Section Unbound_vals.
Context {doc response scalar f32 dtype obj results : Type} `{EqDecision f32}.
Context (get_sample_size : @Task doc response scalar obj -> option nat -> option nat).
Context (to_float32 : scalar -> f32) (pad_value : f32).
Context (tensor_dtype : list (@mvalue scalar obj) -> dtype) (to_dtype : dtype -> f32 -> scalar).
Context (finalize : M (@state response scalar obj) results).
Abbreviation state := (@state response scalar obj).
Implicit Types (s : state).

Abbreviation unbound := (@vals_unbound response scalar obj).

Ltac preserve :=
  repeat first
    [ apply preserves_ret | apply preserves_throw | apply preserves_get | apply preserves_lift
    | apply preserves_load_global | apply preserves_subscript
    | apply preserves_modify; intros [] ?; done
    | apply preserves_bind | apply preserves_for_each | apply preserves_comprehension
    | match goal with
      | |- forall _ : _ * _, _ => intros []
      | |- forall _, _ => intros ?
      end ].

Lemma check_log_samples_unbound log_samples (eval_tasks : list (@TaskOutput doc response scalar obj)) :
  preserves unbound (check_log_samples log_samples eval_tasks).
Proof.
  unfold check_log_samples. destruct log_samples; [preserve|].
  destruct (forallb _ _); preserve.
Qed.

Lemma build_requests_unbound rank W (eval_tasks : list (@TaskOutput doc response scalar obj)) :
  preserves unbound (build_requests get_sample_size rank W eval_tasks).
Proof.
  unfold build_requests. apply preserves_for_each. intros [i task_output].
  unfold build_task. preserve.
  destruct (decide _); [|preserve].
  apply preserves_bind; [|preserve].
  unfold numpad. destruct (_ !! _); preserve.
Qed.

Lemma dispatch_unbound (lm : LM) W : preserves unbound (dispatch lm W : M state unit).
Proof.
  unfold dispatch. preserve. unfold dispatch_group. preserve.
  destruct (lm _); [|preserve]. unfold write_back. preserve.
Qed.

Lemma collect_task_unbound rank W log_samples (entry : nat * @TaskOutput doc response scalar obj) :
  preserves unbound (collect_task rank W log_samples entry).
Proof.
  destruct entry as [i task_output]. unfold collect_task. preserve.
  destruct (instances _ !!! _); [preserve|]. preserve.
  unfold collect_doc. preserve.
  destruct log_samples; [|preserve]. unfold log_sample. preserve.
  destruct (_ !!! _); preserve.
Qed.

Lemma before_gather_unbound (lm : LM) (eval_tasks : list (@TaskOutput doc response scalar obj))
    log_samples rank W :
  preserves unbound (before_gather get_sample_size lm eval_tasks log_samples rank W).
Proof.
  unfold before_gather.
  apply preserves_bind; [apply check_log_samples_unbound|]. intros _.
  apply preserves_bind; [apply build_requests_unbound|]. intros _.
  apply preserves_bind; [apply dispatch_unbound|]. intros _.
  apply preserves_for_each. apply collect_task_unbound.
Qed.

Lemma reduce_phase_unbound rank W peers s :
  1 < W -> vals s = None ->
  reduce_phase to_float32 pad_value tensor_dtype to_dtype rank W peers s
  = (s, Raise (UnboundLocalError "vals")).
Proof.
  intros HW Hvals. unfold reduce_phase. rewrite decide_True by done.
  rewrite run_bind. unfold get at 1. cbv beta iota. by rewrite Hvals.
Qed.

(** C3, where the code departs from it.  In a world of several ranks,
    whenever the steps before the gather end normally, the gather raises
    [UnboundLocalError] at its first line: it reads [vals], which is
    assigned only after the loop.  No list is padded, gathered or
    reduced. *)
Theorem gather_reads_unbound_vals (lm : LM) (eval_tasks : list (@TaskOutput doc response scalar obj))
    log_samples limit0 rank W peers s :
  1 < W ->
  before_gather get_sample_size lm eval_tasks log_samples rank W (initial_state limit0)
  = (s, Ok tt) ->
  reduce_phase to_float32 pad_value tensor_dtype to_dtype rank W peers s
  = (s, Raise (UnboundLocalError "vals")).
Proof.
  intros HW Hrun. apply reduce_phase_unbound; [done|].
  pose proof (before_gather_unbound lm eval_tasks log_samples rank W (initial_state limit0)) as Hp.
  rewrite Hrun in Hp. by apply Hp.
Qed.

(** C1, where the code departs from it.  In a world of several ranks
    [evaluate] never returns: every run ends in an exception, so there are
    no aggregate values to compare with those of a single rank. *)
Theorem evaluate_raises_on_several_ranks (lm : LM)
    (eval_tasks : list (@TaskOutput doc response scalar obj)) log_samples limit0 rank W peers :
  1 < W ->
  exists s e,
    evaluate get_sample_size to_float32 pad_value tensor_dtype to_dtype finalize
             lm eval_tasks log_samples rank W peers (initial_state limit0)
    = (s, Raise e).
Proof.
  intros HW. unfold evaluate. rewrite run_bind.
  pose proof (before_gather_unbound lm eval_tasks log_samples rank W (initial_state limit0)) as Hp.
  destruct (before_gather _ _ _ _ _ _ _) as [s [[]|e]] eqn:Hrun; [|by eauto].
  rewrite run_bind, reduce_phase_unbound by (done || by apply Hp). eauto.
Qed.

End Unbound_vals.

(** No task at all, two ranks: the steps before the gather have nothing to
    do, and the gather raises. *)
Lemma gather_reads_unbound_vals_witness :
  1 < 2 /\
  reduce_phase (fun x : nat => x) 0 (fun _ : list (@mvalue nat string) => tt) (fun _ x => x)
               0 2 (fun _ => []) (@initial_state string nat string None)
  = (initial_state None, Raise (UnboundLocalError "vals")).
Proof.
  split; [lia|].
  apply (gather_reads_unbound_vals keep_limit (fun x : nat => x) 0 (fun _ => tt) (fun _ x => x)
           lm_all [] true None 0 2 (fun _ => []) (initial_state None)).
  - lia.
  - reflexivity.
Defined.

Lemma evaluate_raises_on_several_ranks_witness :
  1 < 2 /\
  exists s e,
    evaluate_with lm_all [mkTaskOutput "a" task_a] true 0 2 (initial_state None) = (s, Raise e).
Proof.
  split; [lia|].
  apply (evaluate_raises_on_several_ranks keep_limit (fun x : nat => x) 0 (fun _ => tt)
           (fun _ x => x) (mret tt) lm_all [mkTaskOutput "a" task_a] true None 0 2 (fun _ => [])).
  lia.
Defined.

(** The scenario of the specification on two ranks and on one: neither run
    returns; both stop in the collection, at the first document. *)
Example scenario_never_returns :
  (evaluate_with lm_all [mkTaskOutput "a" task_a] true 0 2 (initial_state None)).2
  = Raise (NameError "filter_key") /\
  (evaluate_with lm_all [mkTaskOutput "a" task_a] true 1 2 (initial_state None)).2
  = Raise (NameError "filter_key") /\
  (evaluate_with lm_all [mkTaskOutput "a" task_a] true 0 1 (initial_state None)).2
  = Raise (NameError "filter_key").
Proof. vm_compute. repeat split; reflexivity. Qed.

(** ** The polarity of the metrics of a group *)

Section Polarity.
Context (default_factory : bool).
Implicit Types (s : hib_state) (m group name : string) (h : polarity).

Lemma evolves_refl v : evolves v v.
Proof. destruct v as [[b|]|]; simpl; auto. Qed.

Lemma evolves_trans v1 v2 v3 : evolves v1 v2 -> evolves v2 v3 -> evolves v1 v3.
Proof.
  destruct v1 as [[b|]|]; simpl; [|by intros ->|done].
  intros [->| ->]; simpl; [done|]. by right.
Qed.

Global Instance advances_refl groups : Reflexive (advances groups).
Proof.
  intros s. split_and!; auto using evolves_refl. exists []. by rewrite app_nil_r.
Qed.

Global Instance advances_trans groups : Transitive (advances groups).
Proof.
  intros s1 s2 s3 (Ha & Hb & Hc & He & [w1 Hd]) (Ha' & Hb' & Hc' & He' & [w2 Hd']). split_and!.
  - intros m. eapply evolves_trans; [apply Ha|apply Ha'].
  - auto.
  - eauto.
  - auto.
  - exists (w1 ++ w2). by rewrite Hd', Hd, app_assoc.
Qed.

(** Lines 633-638 for one metric of one subtask. *)
Lemma merge_metric_spec group m h s :
  exists s',
    merge_metric group (m, h) s = (s', Ok tt) /\
    higher_is_better s' = higher_is_better s /\
    (forall m', m' <> m -> dict_get (_higher_is_better s') m' = dict_get (_higher_is_better s) m') /\
    match dict_get (_higher_is_better s) m with
    | None => dict_get (_higher_is_better s') m = Some h /\ warnings s' = warnings s
    | Some None => s' = s
    | Some (Some b) =>
        if decide (Some b = h) then s' = s
        else dict_get (_higher_is_better s') m = Some None /\
             warnings s' = warnings s ++ [(m, group)]
    end.
Proof.
  unfold merge_metric. rewrite run_bind. unfold get at 1. cbv beta iota.
  destruct (dict_get (_higher_is_better s) m) as [[b|]|] eqn:Hm.
  - rewrite run_bind. change ((mret tt : M hib_state unit) s) with (s, Ok tt). cbv beta iota.
    rewrite run_bind. unfold get at 1. cbv beta iota. rewrite Hm.
    destruct (decide (Some b ≠ h)) as [Hne|Heq].
    + eexists. split; [reflexivity|]. simpl. split; [done|]. split.
      * intros m' Hm'. rewrite dict_get_set. by rewrite decide_False by done.
      * rewrite decide_False by done. split; [|done].
        rewrite dict_get_set. by rewrite decide_True.
    + exists s. split; [done|]. split; [done|]. split; [done|].
      rewrite decide_True; [done|]. by destruct (decide (Some b = h)); [|destruct Heq].
  - rewrite run_bind. change ((mret tt : M hib_state unit) s) with (s, Ok tt). cbv beta iota.
    rewrite run_bind. unfold get at 1. cbv beta iota. rewrite Hm.
    exists s. by split_and!.
  - rewrite run_bind. unfold modify at 1. cbv beta iota.
    rewrite run_bind. unfold get at 1. cbv beta iota.
    assert (Hset : dict_get (_higher_is_better (set_acc (fun d => dict_set d m h) s)) m = Some h).
    { simpl. rewrite dict_get_set. by rewrite decide_True. }
    rewrite Hset.
    assert (Hend : (match h with
                    | Some b => if decide (Some b ≠ h)
                                then modify (warn m group);; modify (set_acc (fun d => dict_set d m None))
                                else mret tt
                    | None => mret tt
                    end) (set_acc (fun d => dict_set d m h) s)
                   = (set_acc (fun d => dict_set d m h) s, Ok tt)).
    { destruct h as [b|]; [|done]. by rewrite decide_False by (intros Hne; by apply Hne). }
    eexists. split; [exact Hend|]. split; [done|]. split; [|done].
    intros m' Hm'. simpl. rewrite dict_get_set. by rewrite decide_False by done.
Qed.

Lemma merge_metric_advances groups group (item : string * polarity) s s' r :
  merge_metric group item s = (s', r) -> advances groups s s'.
Proof.
  destruct item as [m h]. intros Hrun.
  destruct (merge_metric_spec group m h s) as (s1 & Hrun1 & Hhib & Hother & Hm).
  rewrite Hrun1 in Hrun. simplify_eq. split_and!.
  - intros m'. destruct (decide (m' = m)) as [->|Hne].
    + destruct (dict_get (_higher_is_better s) m) as [[b|]|] eqn:E; simpl; [| |done].
      * destruct (decide (Some b = h)); [subst s'; by left|]. right. apply Hm.
      * by subst s'.
    + rewrite Hother by done. apply evolves_refl.
  - intros name. by rewrite Hhib.
  - intros name d _. by rewrite Hhib.
  - intros name. by rewrite Hhib.
  - destruct (dict_get (_higher_is_better s) m) as [[b|]|].
    + destruct (decide (Some b = h)); [subst; exists []; by rewrite app_nil_r|].
      eexists. apply Hm.
    + subst. exists []. by rewrite app_nil_r.
    + exists []. rewrite app_nil_r. apply Hm.
Qed.

(** After the metric of a subtask has been merged, the accumulator holds
    the subtask's polarity for it, or [None]. *)
Lemma merge_metric_after group m h s s' r :
  merge_metric group (m, h) s = (s', r) ->
  dict_get (_higher_is_better s') m = Some None \/ dict_get (_higher_is_better s') m = Some h.
Proof.
  intros Hrun.
  destruct (merge_metric_spec group m h s) as (s1 & Hrun1 & _ & _ & Hm).
  rewrite Hrun1 in Hrun. simplify_eq.
  destruct (dict_get (_higher_is_better s) m) as [[b|]|] eqn:E.
  - destruct (decide (Some b = h)) as [<-|]; [subst s'; by right|]. left. apply Hm.
  - subst s'. by left.
  - right. apply Hm.
Qed.

Lemma items_of_spec groups name s s' r :
  items_of default_factory name s = (s', r) ->
  advances groups s s' /\
  forall d, dict_get (higher_is_better s) name = Some (Own d) -> s' = s /\ r = Ok d.
Proof.
  unfold items_of. rewrite run_bind. unfold get at 1. cbv beta iota.
  destruct (dict_get (higher_is_better s) name) as [[d|]|] eqn:Hname.
  - intros Hrun. change ((s, Ok d) = (s', r)) in Hrun. simplify_eq.
    split; [reflexivity|]. intros d' ?. by simplify_eq.
  - intros Hrun. change ((s, Ok (_higher_is_better s)) = (s', r)) in Hrun. simplify_eq.
    split; [reflexivity|]. intros d' ?. by simplify_eq.
  - destruct default_factory.
    + intros Hrun.
      change ((set_hib (fun d => dict_set d name (Own [])) s, Ok []) = (s', r)) in Hrun.
      simplify_eq. split; [|done]. split_and!.
      * intros m. apply evolves_refl.
      * intros name' Hn. simpl. rewrite dict_get_set.
        destruct (decide (name = name')); [congruence|done].
      * intros name' d _ Hn. simpl. rewrite dict_get_set.
        destruct (decide (name = name')); [congruence|done].
      * intros name' Hn. simpl. rewrite dict_get_set.
        destruct (decide (name = name')); [done|done].
      * exists []. by rewrite app_nil_r.
    + intros Hrun. change ((s, Raise (KeyError name)) = (s', r)) in Hrun. simplify_eq.
      split; [reflexivity|done].
Qed.

(** The loop over one subtask's metrics. *)
Lemma subtask_advances groups group name s s' r :
  (items ← items_of default_factory name; for_each items (merge_metric group)) s = (s', r) ->
  advances groups s s'.
Proof.
  rewrite run_bind. destruct (items_of default_factory name s) as [s1 [items|e]] eqn:Hitems.
  - intros Hrun. transitivity s1.
    + eapply items_of_spec; done.
    + eapply (for_each_rel (advances groups)); [|done].
      intros item ? ? ? _. apply merge_metric_advances.
  - intros ?. simplify_eq. eapply items_of_spec; done.
Qed.

Lemma store_shared_advances (groups : string -> Prop) group s :
  groups group -> advances groups s (set_hib (fun d => dict_set d group Shared) s).
Proof.
  intros Hg. split_and!.
  - intros m. apply evolves_refl.
  - intros name Hn. simpl. rewrite dict_get_set. by destruct (decide (group = name)).
  - intros name d Hname Hn. simpl. rewrite dict_get_set.
    destruct (decide (group = name)); [by subst|done].
  - intros name Hn. simpl. rewrite dict_get_set. by destruct (decide (group = name)).
  - exists []. by rewrite app_nil_r.
Qed.

(** What one iteration of the loop over the groups does when it ends
    normally: it runs the loop over the subtasks and stores the shared
    object under the group. *)
Lemma consolidate_group_ok group task_list s s' :
  task_list <> [] ->
  consolidate_group default_factory (group, task_list) s = (s', Ok tt) ->
  exists s1,
    for_each task_list (fun task_ =>
      items ← items_of default_factory task_; for_each items (merge_metric group)) s
    = (s1, Ok tt) /\
    s' = set_hib (fun d => dict_set d group Shared) s1.
Proof.
  intros Hne. unfold consolidate_group.
  rewrite decide_True by (by destruct task_list).
  rewrite run_bind. destruct (for_each task_list _ s) as [s1 [[]|e]]; [|intros; simplify_eq].
  intros Hrun. exists s1. split; [done|].
  change ((set_hib (fun d => dict_set d group Shared) s1, Ok tt) = (s', Ok tt)) in Hrun.
  by simplify_eq.
Qed.

Lemma consolidate_group_advances (subtask_list : dict string (list string))
    (item : string * list string) s s' r :
  item ∈ subtask_list ->
  consolidate_group default_factory item s = (s', r) ->
  advances (is_group subtask_list) s s'.
Proof.
  destruct item as [group task_list]. intros Hin. unfold consolidate_group.
  destruct (decide (length task_list ≠ 0)) as [Hne|Hempty].
  - rewrite run_bind. destruct (for_each task_list _ s) as [s1 [[]|e]] eqn:Hloop.
    + intros Hrun.
      change ((set_hib (fun d => dict_set d group Shared) s1, Ok tt) = (s', r)) in Hrun.
      simplify_eq. transitivity s1.
      * eapply (for_each_rel (advances (is_group subtask_list))); [|done].
        intros name ? ? ? _. apply subtask_advances.
      * apply store_shared_advances. exists task_list. split; [done|]. by destruct task_list.
    + intros ?. simplify_eq.
      eapply (for_each_rel (advances (is_group subtask_list))); [|done].
      intros name ? ? ? _. apply subtask_advances.
  - intros Hrun. change ((s, Ok tt) = (s', r)) in Hrun. by simplify_eq.
Qed.

Lemma consolidate_run (subtask_list : dict string (list string)) s :
  consolidate_higher_is_better default_factory subtask_list s
  = for_each subtask_list (consolidate_group default_factory) (set_acc (fun _ => []) s).
Proof. reflexivity. Qed.

(** A group with subtasks ends up holding the shared object. *)
Lemma group_holds_shared (subtask_list : dict string (list string)) s s' group task_list :
  consolidate_higher_is_better default_factory subtask_list s = (s', Ok tt) ->
  (group, task_list) ∈ subtask_list -> task_list <> [] ->
  dict_get (higher_is_better s') group = Some Shared.
Proof.
  rewrite consolidate_run. intros Hrun Hin Hne.
  destruct (for_each_split (advances (is_group subtask_list)) subtask_list
              (consolidate_group default_factory) (group, task_list) _ s'
              ltac:(intros; by eapply consolidate_group_advances) Hin Hrun)
    as (s1 & s2 & _ & Hgroup & Hrest).
  apply consolidate_group_ok in Hgroup as (s1' & _ & ->); [|done].
  apply Hrest. simpl. rewrite dict_get_set. by rewrite decide_True.
Qed.

(** The polarity a subtask declares for a metric reaches the accumulator:
    at the end it holds that polarity for the metric, or [None]. *)
Lemma contribution_recorded (subtask_list : dict string (list string)) s s'
    group task_list name d m h :
  consolidate_higher_is_better default_factory subtask_list s = (s', Ok tt) ->
  (group, task_list) ∈ subtask_list -> name ∈ task_list ->
  ~ is_group subtask_list name ->
  dict_get (higher_is_better s) name = Some (Own d) ->
  (m, h) ∈ d ->
  dict_get (_higher_is_better s') m = Some None \/ dict_get (_higher_is_better s') m = Some h.
Proof.
  rewrite consolidate_run. intros Hrun Hin Hname Hleaf Hown Hitem.
  set (R := advances (is_group subtask_list)).
  destruct (for_each_split R subtask_list (consolidate_group default_factory)
              (group, task_list) _ s'
              ltac:(intros; by eapply consolidate_group_advances) Hin Hrun)
    as (s1 & s2 & H01 & Hgroup & H2').
  apply consolidate_group_ok in Hgroup as (s1' & Hloop & ->);
    [|by intros ->; apply elem_of_nil in Hname].
  assert (Hbody : forall y s s' r, y ∈ task_list ->
            (fun task_ => items ← items_of default_factory task_;
                          for_each items (merge_metric group)) y s = (s', r) -> R s s').
  { intros y ? ? ? _. apply subtask_advances. }
  destruct (for_each_split R task_list _ name s1 s1' Hbody Hname Hloop)
    as (sa & sb & H1a & Htask & Hb1).
  assert (Hown_a : dict_get (higher_is_better sa) name = Some (Own d)).
  { apply H1a; [done|]. by apply H01. }
  rewrite run_bind in Htask.
  destruct (items_of default_factory name sa) as [sa' r'] eqn:Hitems.
  apply (items_of_spec (is_group subtask_list)) in Hitems as [_ Hitems].
  destruct (Hitems d Hown_a) as [-> ->].
  destruct (for_each_split R d (merge_metric group) (m, h) sa sb
              ltac:(intros; by eapply merge_metric_advances) Hitem Htask)
    as (sx & sy & _ & Hmerge & Hyb).
  apply merge_metric_after in Hmerge.
  assert (Hev : evolves (dict_get (_higher_is_better sy) m) (dict_get (_higher_is_better s') m)).
  { eapply evolves_trans; [apply Hyb|].
    eapply evolves_trans; [apply Hb1|]. apply H2'. }
  destruct Hmerge as [Hy|Hy]; rewrite Hy in Hev; simpl in Hev; [by left|].
  destruct h as [b|]; [destruct Hev; auto|by left].
Qed.

(** When two subtasks of a group declare [True] and [False] for a metric,
    the group's record holds [None] for it. *)
Lemma disagreement_recorded_none (subtask_list : dict string (list string)) s s'
    group task_list name1 name2 d1 d2 m :
  consolidate_higher_is_better default_factory subtask_list s = (s', Ok tt) ->
  (group, task_list) ∈ subtask_list -> name1 ∈ task_list -> name2 ∈ task_list ->
  ~ is_group subtask_list name1 -> ~ is_group subtask_list name2 ->
  dict_get (higher_is_better s) name1 = Some (Own d1) ->
  dict_get (higher_is_better s) name2 = Some (Own d2) ->
  (m, Some true) ∈ d1 -> (m, Some false) ∈ d2 ->
  exists d, recorded s' group = Some d /\ dict_get d m = Some None.
Proof.
  intros Hrun Hin Hn1 Hn2 Hl1 Hl2 Ho1 Ho2 Hm1 Hm2.
  exists (_higher_is_better s'). split.
  - unfold recorded. erewrite group_holds_shared; [done|done|done|].
    by intros ->; apply elem_of_nil in Hn1.
  - destruct (contribution_recorded subtask_list s s' group task_list name1 d1 m (Some true))
      as [?|E1]; [done..|].
    destruct (contribution_recorded subtask_list s s' group task_list name2 d2 m (Some false))
      as [?|E2]; [done..|]. congruence.
Qed.

(** The consolidation ends normally when [higher_is_better] makes up
    missing keys, or holds an entry for every subtask of every group. *)
Lemma consolidate_ends_normally (subtask_list : dict string (list string)) s :
  default_factory = true \/
  (forall group task_list name,
     (group, task_list) ∈ subtask_list -> name ∈ task_list ->
     is_Some (dict_get (higher_is_better s) name)) ->
  exists s', consolidate_higher_is_better default_factory subtask_list s = (s', Ok tt).
Proof.
  intros Hpresent. rewrite consolidate_run.
  set (I := fun s0 : hib_state =>
         default_factory = true \/
         forall group task_list name,
           (group, task_list) ∈ subtask_list -> name ∈ task_list ->
           is_Some (dict_get (higher_is_better s0) name)).
  assert (Hadv : forall s1 s2, advances (is_group subtask_list) s1 s2 -> I s1 -> I s2).
  { intros s1 s2 (_ & _ & _ & Hkeep & _) [?|Hs1]; [by left|]. right. eauto. }
  destruct (for_each_ok I subtask_list (consolidate_group default_factory)) with (s := set_acc (fun _ => []) s)
    as (s' & Hrun & _); [|exact Hpresent|by exists s'].
  intros [group task_list] s1 Hin Hs1. unfold consolidate_group.
  destruct (decide (length task_list ≠ 0)) as [Hne|_]; [|by exists s1].
  destruct (for_each_ok
              (fun s0 => I s0 /\ advances (is_group subtask_list) s1 s0) task_list
              (fun task_ => items ← items_of default_factory task_;
                            for_each items (merge_metric group))) with (s := s1)
    as (s2 & Hloop & Hs2 & H12); [|split; [done|reflexivity]|].
  - intros name sa Hname [Hsa H1a]. rewrite run_bind.
    destruct (items_of default_factory name sa) as [sb [items|e]] eqn:Hitems.
    + pose proof (proj1 (items_of_spec (is_group subtask_list) name sa sb _ Hitems)) as Hab.
      destruct (for_each_ok (fun s0 => advances (is_group subtask_list) sb s0) items
                  (merge_metric group)) with (s := sb) as (sc & Hmerge & Hbc); [|reflexivity|].
      * intros [m h] sx _ Hbx.
        destruct (merge_metric_spec group m h sx) as (sy & Hrun & _).
        exists sy. split; [done|]. transitivity sx; [done|].
        by eapply merge_metric_advances.
      * exists sc. split; [done|]. split.
        -- apply (Hadv sa); [|done]. by transitivity sb.
        -- transitivity sa; [done|]. by transitivity sb.
    + exfalso. unfold items_of in Hitems. rewrite run_bind in Hitems.
      unfold get at 1 in Hitems. cbv beta iota in Hitems.
      destruct Hsa as [Hdf|Hsa].
      * rewrite Hdf in Hitems.
        destruct (dict_get (higher_is_better sa) name) as [[d|]|]; by simplify_eq.
      * destruct (Hsa group task_list name Hin Hname) as [entry_ Hentry].
        rewrite Hentry in Hitems. destruct entry_; by simplify_eq.
  - rewrite run_bind, Hloop. eexists. split; [reflexivity|].
    apply (Hadv s2); [|done]. apply store_shared_advances.
    exists task_list. split; [done|]. by destruct task_list.
Qed.

(** C10.  When the consolidation ends normally, every group with subtasks
    records one and the same mapping, the accumulator made before the loop
    over the groups; and for every metric of every subtask of every such
    group that mapping holds the polarity the subtask declares, or [None].
    So the record of a group holds the metrics of the subtasks of the
    groups processed before it as well as those of its own. *)
Theorem accumulator_shared_across_groups (subtask_list : dict string (list string)) s s' :
  consolidate_higher_is_better default_factory subtask_list s = (s', Ok tt) ->
  (forall group task_list,
     (group, task_list) ∈ subtask_list -> task_list <> [] ->
     recorded s' group = Some (_higher_is_better s')) /\
  (forall group task_list name d m h,
     (group, task_list) ∈ subtask_list -> name ∈ task_list ->
     ~ is_group subtask_list name ->
     dict_get (higher_is_better s) name = Some (Own d) ->
     (m, h) ∈ d ->
     dict_get (_higher_is_better s') m = Some h \/ dict_get (_higher_is_better s') m = Some None).
Proof.
  intros Hrun. split.
  - intros group task_list Hin Hne. unfold recorded. by erewrite group_holds_shared.
  - intros group task_list name d m h Hin Hname Hleaf Hown Hitem.
    destruct (contribution_recorded subtask_list s s' group task_list name d m h); auto.
Qed.

End Polarity.

Lemma accumulator_shared_across_groups_witness :
  let s' := (consolidate_higher_is_better true two_groups disagreeing).1 in
  consolidate_higher_is_better true two_groups disagreeing = (s', Ok tt) /\
  (forall group task_list,
     (group, task_list) ∈ two_groups -> task_list <> [] ->
     recorded s' group = Some (_higher_is_better s')) /\
  (forall group task_list name d m h,
     (group, task_list) ∈ two_groups -> name ∈ task_list ->
     ~ is_group two_groups name ->
     dict_get (higher_is_better disagreeing) name = Some (Own d) ->
     (m, h) ∈ d ->
     dict_get (_higher_is_better s') m = Some h \/ dict_get (_higher_is_better s') m = Some None).
Proof.
  split; [reflexivity|].
  apply (accumulator_shared_across_groups true two_groups disagreeing). reflexivity.
Defined.

(** C8, where the code departs from it.  Two groups whose tasks disagree on
    [acc]: both groups record [None] for it, and the only warning is the
    one for the first group; the disagreement in the second group passes
    without a warning, the accumulator holding [None] already. *)
Example second_group_unwarned :
  let s' := (consolidate_higher_is_better true Fixtures.two_groups Fixtures.disagreeing).1 in
  (consolidate_higher_is_better true Fixtures.two_groups Fixtures.disagreeing).2 = Ok tt /\
  recorded s' "g1" = Some [("acc", None)] /\
  recorded s' "g2" = Some [("acc", None)] /\
  warnings s' = [("acc", "g1")].
Proof. vm_compute. repeat split; reflexivity. Qed.

(** ** The reduction of one key, were it reached *)

Section Reduction.
Context {scalar f32 dtype obj : Type} `{EqDecision f32}.
Context (to_float32 : scalar -> f32) (pad_value : f32).
Context (tensor_dtype : list (@mvalue scalar obj) -> dtype) (to_dtype : dtype -> f32 -> scalar).
Abbreviation mvalue := (@mvalue scalar obj).
Implicit Types (xs : list scalar) (xss : list (list scalar)) (fs : list f32).

Lemma numbers_MNum xs : numbers ((MNum <$> xs) : list mvalue) = Some xs.
Proof.
  unfold numbers. induction xs as [|x xs IH]; [done|].
  rewrite fmap_cons. simpl. simpl in IH. by rewrite IH.
Qed.

Lemma torch_tensor_numbers xs :
  torch_tensor to_float32 ((MNum <$> xs) : list mvalue) = Ok (Tensor1 (to_float32 <$> xs)).
Proof.
  unfold torch_tensor. destruct xs as [|x xs]; [done|].
  rewrite fmap_cons. rewrite <- fmap_cons. by rewrite numbers_MNum.
Qed.

Lemma cat_Tensor1 (ls : list (list f32)) : cat (Tensor1 <$> ls) = Ok (Tensor1 (mjoin ls)).
Proof.
  assert (Hall : mapM (fun t => match t with
                                | Tensor1 xs => Ok xs
                                | Tensor2 _ => Raise (ValueError "tensors of different dimensions")
                                end) (Tensor1 <$> ls) = Ok ls).
  { induction ls as [|l ls IH]; [done|]. rewrite fmap_cons. simpl. simpl in IH. by rewrite IH. }
  destruct ls as [|l ls]; [done|]. unfold cat. rewrite fmap_cons. rewrite <- fmap_cons.
  by rewrite Hall.
Qed.

Lemma filter_padding fs k :
  Forall (fun x => x <> pad_value) fs ->
  filter (fun x => x <> pad_value) (fs ++ replicate k pad_value) = fs.
Proof.
  intros Hfs. rewrite filter_app.
  assert (Hpad : filter (fun x => x <> pad_value) (replicate k pad_value) = []).
  { induction k as [|k IH]; [done|]. simpl. by rewrite filter_cons_False by (intros Hne; by apply Hne). }
  rewrite Hpad, app_nil_r. induction Hfs as [|x fs Hx Hfs IH]; [done|].
  by rewrite filter_cons_True, IH.
Qed.

(** Numbers: were the loop reached with every rank's list bound, a list of
    numbers none of which is the padding value as a float32 would come back
    whole: the ranks' lists one after the other, rank 0 first, each value
    taken through float32 and back, so that the length of the result is
    the sum of the ranks' lengths. *)
Lemma reduce_numbers_round_trip xss x xs :
  Forall (Forall (fun x => to_float32 x <> pad_value)) xss ->
  let items : list mvalue := MNum <$> (x :: xs) in
  let all_items : list (list mvalue) := (fun xs => MNum <$> xs) <$> xss in
  reduce_items to_float32 pad_value tensor_dtype to_dtype all_items items
  = Ok ((fun y => MNum (to_dtype (tensor_dtype items) (to_float32 y))) <$> mjoin xss) /\
  length ((fun y => MNum (to_dtype (tensor_dtype items) (to_float32 y)) : mvalue) <$> mjoin xss)
  = sum_list (length <$> xss).
Proof.
  intros Hxss items all_items. split.
  2:{ rewrite length_fmap. clear. induction xss as [|l xss IH]; [done|].
      simpl. rewrite length_app, IH. done. }
  unfold reduce_items. subst items. rewrite fmap_cons. rewrite <- fmap_cons.
  rewrite torch_tensor_numbers. cbn [mbind result_bind].
  assert (Htensors : mapM (torch_tensor to_float32) all_items
                     = Ok ((fun xs => Tensor1 (to_float32 <$> xs)) <$> xss)).
  { subst all_items. clear. induction xss as [|l xss IH]; [done|].
    rewrite !fmap_cons. cbn [mapM]. rewrite torch_tensor_numbers. cbn [mbind result_bind].
    rewrite IH. done. }
  rewrite Htensors. cbn [mbind result_bind].
  set (n := max_list _). clearbody n.
  assert (Hpadded : pad_across_processes pad_value n <$> ((fun xs => Tensor1 (to_float32 <$> xs)) <$> xss)
                    = Tensor1 <$> ((fun xs => (to_float32 <$> xs)
                                     ++ replicate (n - length (to_float32 <$> xs)) pad_value) <$> xss)).
  { rewrite <- !list_fmap_compose. done. }
  rewrite Hpadded, cat_Tensor1. cbn [mbind result_bind]. unfold unpad.
  rewrite decide_False by lia. f_equal.
  assert (Hfilter : filter (fun y => y <> pad_value)
                      (mjoin ((fun xs => (to_float32 <$> xs)
                                 ++ replicate (n - length (to_float32 <$> xs)) pad_value) <$> xss))
                    = to_float32 <$> mjoin xss).
  { clear Hpadded Htensors. induction Hxss as [|l xss Hl Hxss IH]; [done|].
    rewrite fmap_cons. simpl. rewrite filter_app, filter_padding, fmap_app, IH; [done|].
    by apply Forall_fmap. }
  rewrite Hfilter. by rewrite <- list_fmap_compose.
Qed.

Lemma tuples_MTuple w (rows : list (list scalar)) :
  Forall (fun r => length r = w) rows ->
  tuples w ((MTuple <$> rows) : list mvalue) = Some rows.
Proof.
  unfold tuples. induction 1 as [|r rows Hr Hrows IH]; [done|].
  rewrite fmap_cons. simpl. simpl in IH. rewrite decide_True by done. simpl. by rewrite IH.
Qed.

Lemma torch_tensor_tuples w (rows : list (list scalar)) :
  rows <> [] -> Forall (fun r => length r = w) rows ->
  torch_tensor to_float32 ((MTuple <$> rows) : list mvalue)
  = Ok (Tensor2 ((fun r : list scalar => to_float32 <$> r) <$> rows)).
Proof.
  intros Hne Hw. unfold torch_tensor. destruct rows as [|r rows]; [done|].
  rewrite fmap_cons. rewrite <- fmap_cons.
  assert (length r = w) as -> by (by inversion Hw). by rewrite tuples_MTuple.
Qed.

Lemma cat_Tensor2 (ls : list (list (list f32))) :
  ls <> [] -> cat (Tensor2 <$> ls) = Ok (Tensor2 (mjoin ls)).
Proof.
  intros Hne.
  assert (Hall : mapM (fun t => match t with
                                | Tensor2 rows => Ok rows
                                | Tensor1 _ => Raise (ValueError "tensors of different dimensions")
                                end) (Tensor2 <$> ls) = Ok ls).
  { clear. induction ls as [|l ls IH]; [done|]. rewrite fmap_cons. simpl. simpl in IH. by rewrite IH. }
  destruct ls as [|l ls]; [done|]. unfold cat. rewrite fmap_cons. rewrite <- fmap_cons.
  by rewrite Hall.
Qed.

Lemma filter_padding_rows w (rows : list (list f32)) k :
  0 < w ->
  Forall (fun row => head row <> Some pad_value) rows ->
  filter (fun row => head row <> Some pad_value) (rows ++ replicate k (replicate w pad_value))
  = rows.
Proof.
  intros Hw Hrows. rewrite filter_app.
  assert (Hpad : filter (fun row => head row <> Some pad_value)
                        (replicate k (replicate w pad_value)) = []).
  { induction k as [|k IH]; [done|]. simpl. rewrite filter_cons_False; [done|].
    intros Hne. apply Hne. by destruct w; [lia|]. }
  rewrite Hpad, app_nil_r. induction Hrows as [|x rows Hx Hrows IH]; [done|].
  by rewrite filter_cons_True, IH.
Qed.

(** Tuples of one width [w]: the same, row by row; a row is recognised as
    padding by its first component. *)
Lemma reduce_tuples_round_trip (rowss : list (list (list scalar))) w row rows :
  0 < w -> rowss <> [] ->
  Forall (fun rows => rows <> [] /\
            Forall (fun r => length r = w /\
                      forall y, head r = Some y -> to_float32 y <> pad_value) rows) rowss ->
  Forall (fun r => length r = w) (row :: rows) ->
  let items : list mvalue := MTuple <$> (row :: rows) in
  let all_items : list (list mvalue) := (fun rows : list (list scalar) => MTuple <$> rows) <$> rowss in
  reduce_items to_float32 pad_value tensor_dtype to_dtype all_items items
  = Ok ((fun r : list scalar => MTuple ((fun y => to_dtype (tensor_dtype items) (to_float32 y)) <$> r))
          <$> mjoin rowss).
Proof.
  intros Hw Hne Hrowss Hown items all_items.
  unfold reduce_items. subst items. rewrite fmap_cons. rewrite <- fmap_cons.
  rewrite (torch_tensor_tuples w) by done. cbn [mbind result_bind].
  assert (Htensors : mapM (torch_tensor to_float32) all_items
                     = Ok ((fun rows : list (list scalar) => Tensor2 ((fun r : list scalar => to_float32 <$> r) <$> rows)) <$> rowss)).
  { subst all_items. clear Hne Hown. induction Hrowss as [|l rowss [Hl Hrows] _ IH]; [done|].
    rewrite !fmap_cons. cbn [mapM]. rewrite (torch_tensor_tuples w l); [|done|].
    - cbn [mbind result_bind]. by rewrite IH.
    - eapply Forall_impl; [exact Hrows|]. by intros r [? _]. }
  rewrite Htensors. cbn [mbind result_bind].
  set (n := max_list _). clearbody n.
  assert (Hpadded :
    pad_across_processes pad_value n
      <$> ((fun rows : list (list scalar) => Tensor2 ((fun r : list scalar => to_float32 <$> r) <$> rows)) <$> rowss)
    = Tensor2 <$> ((fun rows : list (list scalar) => ((fun r : list scalar => to_float32 <$> r) <$> rows)
                      ++ replicate (n - length ((fun r : list scalar => to_float32 <$> r) <$> rows))
                                   (replicate w pad_value)) <$> rowss)).
  { rewrite <- !list_fmap_compose. apply Forall_fmap_ext_1.
    eapply Forall_impl; [exact Hrowss|]. intros l [Hl Hrows]. simpl.
    destruct l as [|r l]; [done|]. simpl. rewrite !length_fmap.
    assert (length r = w) as -> by (inversion Hrows as [|? ? [? _]]; done). done. }
  rewrite Hpadded, cat_Tensor2 by (by destruct rowss). cbn [mbind result_bind]. unfold unpad.
  assert (length row = w) as -> by (by inversion Hown).
  rewrite decide_True by done. f_equal.
  assert (Hfilter :
    filter (fun r => head r <> Some pad_value)
      (mjoin ((fun rows : list (list scalar) => ((fun r : list scalar => to_float32 <$> r) <$> rows)
                 ++ replicate (n - length ((fun r : list scalar => to_float32 <$> r) <$> rows))
                              (replicate w pad_value)) <$> rowss))
    = (fun r : list scalar => to_float32 <$> r) <$> mjoin rowss).
  { clear Hpadded Htensors Hne. induction Hrowss as [|l rowss [Hl Hrows] _ IH]; [done|].
    rewrite fmap_cons. simpl. rewrite filter_app, (filter_padding_rows w), fmap_app, IH; [done|done|].
    apply Forall_fmap. eapply Forall_impl; [exact Hrows|]. intros r [_ Hr]. simpl.
    destruct r as [|y r]; [done|]. simpl. intros ?. simplify_eq. by eapply Hr. }
  rewrite Hfilter, <- list_fmap_compose. apply list_fmap_ext. intros _ r _. simpl.
  by rewrite <- list_fmap_compose.
Qed.

End Reduction.

(** * Further properties *)

(** ** The requests a rank holds *)

Section Requests.
Context {doc response scalar obj : Type}.
Context (get_sample_size : @Task doc response scalar obj -> option nat -> option nat).
Abbreviation state := (@state response scalar obj).
Implicit Types (s : state) (t : @Task doc response scalar obj).

Lemma appended_requests (insts : list Instance) (r : dict string (list Instance)) q :
  default [] (dict_get (foldl (fun r inst => dict_append r (request_type inst) inst) r insts) q)
  = default [] (dict_get r q) ++ filter (fun i => request_type i = q) insts.
Proof.
  revert r. induction insts as [|inst insts IH]; intros r; simpl.
  - by rewrite app_nil_r.
  - rewrite IH, filter_cons. unfold dict_append. rewrite dict_get_set.
    destruct (decide (request_type inst = q)) as [->|Hne]; simpl; [|done].
    by rewrite <- app_assoc.
Qed.

Lemma appended_requests_nonempty (insts : list Instance) (r : dict string (list Instance)) :
  (forall q reqs, dict_get r q = Some reqs -> reqs <> []) ->
  forall q reqs,
    dict_get (foldl (fun r inst => dict_append r (request_type inst) inst) r insts) q = Some reqs ->
    reqs <> [].
Proof.
  revert r. induction insts as [|inst insts IH]; intros r Hr; simpl; [done|].
  apply IH. intros q reqs. unfold dict_append. rewrite dict_get_set.
  destruct (decide (request_type inst = q)); [|by apply Hr].
  intros ?; simplify_eq. by destruct (default [] _).
Qed.

Lemma requests_foldl (insts : list Instance) s :
  requests (foldl (fun s instance =>
              set_requests (fun r => dict_append r (request_type instance) instance) s) s insts)
  = foldl (fun r inst => dict_append r (request_type inst) inst) (requests s) insts.
Proof. revert s. induction insts as [|inst insts IH]; intros s; simpl; [done|]. by rewrite IH. Qed.

Lemma build_task_requests rank W i (task_output : TaskOutput) s :
  rank < W ->
  let limit' := get_sample_size (task task_output) (limit s) in
  exists s',
    build_task get_sample_size rank W (i, task_output) s = (s', Ok tt) /\
    limit s' = limit' /\
    requests s'
    = foldl (fun r inst => dict_append r (request_type inst) inst) (requests s)
            (build_all_requests (task task_output) limit' rank W).
Proof.
  intros Hr limit'.
  set (insts := build_all_requests (task task_output) limit' rank W).
  destruct (append_requests insts (set_instances <[i:=insts]> (set_limit limit' s)))
    as (Hl & _ & _).
  pose proof (requests_foldl insts (set_instances <[i:=insts]> (set_limit limit' s))) as Hreq.
  unfold build_task. rewrite run_bind. unfold get at 1. cbv beta iota. fold limit'.
  rewrite run_bind. unfold modify at 1. cbv beta iota.
  rewrite run_bind. unfold modify at 1. cbv beta iota. fold insts.
  rewrite run_bind.
  rewrite (run_for_each_total insts _
    (fun instance => set_requests (fun r => dict_append r (request_type instance) instance)))
    by done.
  cbv beta iota.
  destruct (decide (1 < W)) as [HW|HW].
  - rewrite run_bind. unfold numpad. rewrite gathered_counts_lookup by done.
    eexists. split; [reflexivity|]. simpl. split; [by rewrite Hl|exact Hreq].
  - eexists. split; [reflexivity|]. split; [by rewrite Hl|exact Hreq].
Qed.

Lemma build_entries_requests rank W (entries : list (nat * TaskOutput)) s :
  rank < W ->
  exists s',
    for_each entries (build_task get_sample_size rank W) s = (s', Ok tt) /\
    (forall q, default [] (dict_get (requests s') q)
               = default [] (dict_get (requests s) q)
                 ++ filter (fun i => request_type i = q)
                           (built_instances get_sample_size rank W entries.*2 (limit s))) /\
    ((forall q reqs, dict_get (requests s) q = Some reqs -> reqs <> []) ->
     forall q reqs, dict_get (requests s') q = Some reqs -> reqs <> []).
Proof.
  intros Hr. revert s. induction entries as [|[i task_output] entries IH]; intros s.
  - exists s. split; [done|]. split; [|done]. intros q. simpl. by rewrite app_nil_r.
  - destruct (build_task_requests rank W i task_output s Hr) as (s1 & Hrun1 & Hl1 & Hreq1).
    destruct (IH s1) as (s2 & Hrun2 & Hc2 & Hne2).
    exists s2. split; [by rewrite run_for_each_cons, Hrun1|]. split.
    + intros q. rewrite Hc2, Hl1, Hreq1, appended_requests, fmap_cons. cbn [built_instances snd].
      by rewrite filter_app, app_assoc.
    + intros Hne. apply Hne2. rewrite Hreq1. by apply appended_requests_nonempty.
Qed.

(** X1.  On every rank the loop over the tasks ends normally and leaves,
    under each request type, exactly the instances of that type that the
    tasks built on the rank, in the order of the tasks and of their
    instances; a request type is a key only when it has an instance. *)
Theorem requests_group_by_type (eval_tasks : list TaskOutput) limit0 W rank :
  rank < W ->
  exists s,
    build_requests get_sample_size rank W eval_tasks (initial_state limit0) = (s, Ok tt) /\
    (forall q, default [] (dict_get (requests s) q)
               = filter (fun i => request_type i = q)
                        (built_instances get_sample_size rank W eval_tasks limit0)) /\
    (forall q reqs, dict_get (requests s) q = Some reqs -> reqs <> []).
Proof.
  intros Hr. unfold build_requests.
  destruct (build_entries_requests rank W (enumerate eval_tasks) (initial_state limit0) Hr)
    as (s & Hrun & Hc & Hne).
  assert (Hsnd : (enumerate eval_tasks).*2 = eval_tasks).
  { apply list_eq. intros i. rewrite list_lookup_fmap, enumerate_lookup.
    by destruct (eval_tasks !! i). }
  rewrite Hsnd in Hc. exists s. split; [done|]. split; [exact Hc|].
  apply Hne. intros q reqs Hq. by simplify_eq/=.
Qed.

End Requests.

Lemma requests_group_by_type_witness :
  1 < 2 /\
  exists s,
    build_requests keep_limit 1 2 [mkTaskOutput "a" task_a] (initial_state None) = (s, Ok tt) /\
    (forall q, default [] (dict_get (requests s) q)
               = filter (fun i => request_type i = q)
                        (built_instances keep_limit 1 2 [mkTaskOutput "a" task_a] None)) /\
    (forall q reqs, dict_get (requests s) q = Some reqs -> reqs <> []).
Proof.
  split; [lia|].
  apply (requests_group_by_type keep_limit [mkTaskOutput "a" task_a] None 2 1). lia.
Defined.

(** ** The batches a rank submits *)

Section Submitted.
Context {response scalar obj : Type}.
Abbreviation state := (@state response scalar obj).
Implicit Types (s : state) (gs : list (string * list Instance)) (reqs : list Instance).

Lemma dispatch_run (lm : @LM response) W s :
  dispatch lm W s = for_each (requests s) (dispatch_group lm W) s.
Proof. reflexivity. Qed.

(** The groups the backend serves, one after the other: the log grows by
    the batch of each, and every response lands on the object of its copy. *)
Lemma dispatch_groups_served (lm : @LM response) W gs s :
  Forall (fun g => is_Some (lm g.1)) gs ->
  exists s',
    for_each gs (dispatch_group lm W) s = (s', Ok tt) /\
    lm_calls s' = lm_calls s ++ (submitted W (padding_requests s) <$> gs) /\
    padding_requests s' = padding_requests s /\
    requests s' = requests s.
Proof.
  intros Hgs. revert s. induction Hgs as [|[q reqs] gs [run Hrun] _ IH]; intros s.
  - exists s. split; [done|]. by rewrite app_nil_r.
  - destruct (dispatch_group_spec lm W q reqs run s Hrun) as (h' & Hgroup & _).
    destruct (IH (set_resps (fun _ => h')
                    (set_lm_calls (fun c => c ++ [submitted W (padding_requests s) (q, reqs)]) s)))
      as (s' & Hrest & Hlog & Hpad & Hreq).
    exists s'. split; [by rewrite run_for_each_cons, Hgroup|].
    split; [|by split]. rewrite Hlog. simpl. by rewrite <- app_assoc.
Qed.

(** X2.  When the backend serves every request type the rank holds,
    dispatch ends normally and has called the backend exactly once per
    request type, in the order of the types in [requests], each time with
    the copies of the group's requests followed by its padding copies. *)
Theorem dispatch_calls_once_per_type (lm : @LM response) W s :
  Forall (fun g => is_Some (lm g.1)) (requests s) ->
  exists s',
    dispatch lm W s = (s', Ok tt) /\
    lm_calls s' = lm_calls s ++ (submitted W (padding_requests s) <$> requests s).
Proof.
  intros Hserved. rewrite dispatch_run.
  destruct (dispatch_groups_served lm W (requests s) s Hserved) as (s' & Hrun & Hlog & _).
  by exists s'.
Qed.

(** X3.  The first request type the backend does not serve ends dispatch
    with [AttributeError]: the backend has been called for the groups
    before it, and neither for it nor for the groups after it. *)
Theorem unserved_type_aborts_dispatch (lm : @LM response) W s gs1 q reqs gs2 :
  requests s = gs1 ++ (q, reqs) :: gs2 ->
  Forall (fun g => is_Some (lm g.1)) gs1 ->
  lm q = None ->
  exists s',
    dispatch lm W s = (s', Raise (AttributeError q)) /\
    lm_calls s' = lm_calls s ++ (submitted W (padding_requests s) <$> gs1).
Proof.
  intros Hreq Hserved Hq. rewrite dispatch_run, Hreq.
  destruct (dispatch_groups_served lm W gs1 s Hserved) as (s1 & Hrun1 & Hlog & _).
  exists s1. split; [|done].
  clear Hlog Hreq. revert s Hrun1. induction gs1 as [|g gs1 IH]; intros s Hrun1.
  - change ((s, Ok tt) = (s1, Ok tt)) in Hrun1. simplify_eq.
    rewrite app_nil_l, run_for_each_cons. unfold dispatch_group.
    rewrite run_bind. unfold get at 1. cbv beta iota. by rewrite Hq.
  - rewrite run_for_each_cons in Hrun1. rewrite <- app_comm_cons, run_for_each_cons.
    destruct (dispatch_group lm W g s) as [sa [[]|e]]; [|by simplify_eq].
    apply IH; [by inversion Hserved|done].
Qed.

(** X4.  Dispatch calls the backend only for request types under which the
    rank holds requests, however it ends: for any other type nothing is
    submitted, whatever padding the ledger holds for it. *)
Theorem no_call_without_requests (lm : @LM response) W s s' r q batch :
  dispatch lm W s = (s', r) ->
  (q, batch) ∈ lm_calls s' ->
  (q, batch) ∈ lm_calls s \/ exists reqs, (q, reqs) ∈ requests s.
Proof.
  rewrite dispatch_run. intros Hrun Hcall.
  set (R := fun s1 s2 : state =>
         forall c, c ∈ lm_calls s2 -> c ∈ lm_calls s1 \/ exists reqs, (c.1, reqs) ∈ requests s).
  assert (HR : R s s'); [|by apply (HR (q, batch))].
  assert (Hrefl : Reflexive R) by (intros ? ? ?; by left).
  assert (Htrans : Transitive R).
  { intros s1 s2 s3 H12 H23 c Hc. destruct (H23 c Hc) as [?|?]; [by apply H12|by right]. }
  eapply (for_each_rel R); [|exact Hrun].
  intros [q' reqs'] s1 s2 r' Hin Hgroup c Hc.
  unfold dispatch_group in Hgroup. rewrite run_bind in Hgroup.
  unfold get at 1 in Hgroup. cbv beta iota in Hgroup.
  destruct (lm q') as [run|] eqn:Hlm.
  - rewrite run_bind in Hgroup. unfold modify at 1 in Hgroup. cbv beta iota in Hgroup.
    destruct (write_back_spec (run (clone_reqs reqs' ++ pad_reqs W (padding_requests s1 !!! q') reqs'))
                (clone_reqs reqs' ++ pad_reqs W (padding_requests s1 !!! q') reqs')
                (set_lm_calls (fun c => c ++ [(q', clone_reqs reqs'
                   ++ pad_reqs W (padding_requests s1 !!! q') reqs')]) s1)) as (h' & Hwb & _).
    rewrite Hwb in Hgroup. simplify_eq. simpl in Hc.
    apply elem_of_app in Hc as [?|Hc]; [by left|].
    apply list_elem_of_singleton in Hc. subst c. right. by exists reqs'.
  - change ((s1, Raise (AttributeError q')) = (s2, r')) in Hgroup. simplify_eq. by left.
Qed.

End Submitted.

Lemma dispatch_calls_once_per_type_witness :
  Forall (fun g : string * list Instance => is_Some (lm_all g.1)) (requests holding_two) /\
  exists s',
    dispatch lm_all 1 holding_two = (s', Ok tt) /\
    lm_calls s'
    = lm_calls holding_two ++ (submitted 1 (padding_requests holding_two) <$> requests holding_two).
Proof.
  assert (Hserved : Forall (fun g : string * list Instance => is_Some (lm_all g.1))
                           (requests holding_two)).
  { repeat constructor. by eexists. }
  split; [exact Hserved|].
  exact (dispatch_calls_once_per_type lm_all 1 holding_two Hserved).
Defined.

Lemma unserved_type_aborts_dispatch_witness :
  requests holding_mixed = [("generate_until", [inst0])] ++ [("loglikelihood", [inst_ll])] /\
  lm_generate "loglikelihood" = None /\
  exists s',
    dispatch lm_generate 2 holding_mixed = (s', Raise (AttributeError "loglikelihood")) /\
    lm_calls s'
    = lm_calls holding_mixed
      ++ (submitted 2 (padding_requests holding_mixed) <$> [("generate_until", [inst0])]).
Proof.
  split; [reflexivity|]. split; [reflexivity|].
  apply (unserved_type_aborts_dispatch lm_generate 2 holding_mixed
           [("generate_until", [inst0])] "loglikelihood" [inst_ll] []).
  - reflexivity.
  - repeat constructor. by eexists.
  - reflexivity.
Defined.

Lemma no_call_without_requests_witness :
  let run := dispatch lm_all 1 holding_two in
  ("generate_until", [inst0; inst1]) ∈ lm_calls run.1 /\
  (("generate_until", [inst0; inst1]) ∈ lm_calls holding_two \/
   exists reqs, ("generate_until", reqs) ∈ requests holding_two).
Proof.
  assert (Hcall : ("generate_until", [inst0; inst1]) ∈ lm_calls (dispatch lm_all 1 holding_two).1).
  { vm_compute. left. }
  split; [exact Hcall|].
  apply (no_call_without_requests lm_all 1 holding_two (dispatch lm_all 1 holding_two).1
           (dispatch lm_all 1 holding_two).2 "generate_until" [inst0; inst1]).
  - reflexivity.
  - exact Hcall.
Defined.

Section Answered.
Context {response scalar obj : Type}.
Abbreviation state := (@state response scalar obj).
Implicit Types (s : state) (gs : list (string * list Instance)) (reqs : list Instance).

(** A backend that serves the type and answers every copy it is given. *)
Abbreviation answers lm :=
  (fun g : string * list Instance =>
     exists run : list Instance -> list response,
       lm g.1 = Some run /\ forall batch, length (run batch) = length batch).

Lemma dispatch_groups_answered (lm : @LM response) W gs s :
  Forall (answers lm) gs ->
  exists s',
    for_each gs (dispatch_group lm W) s = (s', Ok tt) /\
    forall l, length (resps s' !!! l)
              = length (resps s !!! l)
                + sum_list ((fun g => length (filter (fun r => oid r = l)
                                                (submitted W (padding_requests s) g).2)) <$> gs).
Proof.
  intros Hgs. revert s. induction Hgs as [|[q reqs] gs (run & Hrun & Hlen) _ IH]; intros s.
  - exists s. split; [done|]. intros l. simpl. lia.
  - destruct (dispatch_group_spec lm W q reqs run s Hrun) as (h' & Hgroup & Hh').
    destruct (IH (set_resps (fun _ => h')
                    (set_lm_calls (fun c => c ++ [submitted W (padding_requests s) (q, reqs)]) s)))
      as (s' & Hrest & Hcount).
    exists s'. split; [by rewrite run_for_each_cons, Hgroup|].
    intros l. rewrite Hcount, fmap_cons. cbn [sum_list sum_list_with].
    change (resps (set_resps (fun _ => h') _) !!! l) with (h' !!! l).
    rewrite Hh', length_app, responses_for_length by apply Hlen.
    simpl. lia.
Qed.

Lemma pad_reqs_none W n reqs : W <= 1 \/ n = 0 -> pad_reqs W n reqs = [].
Proof. intros Hn. unfold pad_reqs. rewrite decide_False; [done|lia]. Qed.

Lemma copies_elsewhere l gs :
  l ∉ oid <$> mjoin gs.*2 ->
  sum_list ((fun g => length (filter (fun r => oid r = l) (clone_reqs g.2))) <$> gs) = 0.
Proof.
  induction gs as [|[q reqs] gs IH]; intros Hl; [done|].
  rewrite fmap_cons in Hl. simpl in Hl. rewrite fmap_app, not_elem_of_app in Hl.
  destruct Hl as [Hhere Hrest]. simpl. rewrite clone_reqs_other by done. simpl. by apply IH.
Qed.

Lemma copies_of_request gs q reqs (req : Instance) :
  NoDup (oid <$> mjoin gs.*2) -> (q, reqs) ∈ gs -> req ∈ reqs ->
  sum_list ((fun g => length (filter (fun r => oid r = oid req) (clone_reqs g.2))) <$> gs)
  = repeats req.
Proof.
  induction gs as [|[q0 reqs0] gs IH]; intros Hnd Hg Hreq; [by apply elem_of_nil in Hg|].
  rewrite fmap_cons in Hnd. simpl in Hnd. rewrite fmap_app in Hnd.
  apply NoDup_app in Hnd as (Hnd0 & Hdisj & Hnd').
  apply elem_of_cons in Hg as [Heq|Hg].
  - simplify_eq. simpl. rewrite clone_reqs_count by done.
    rewrite copies_elsewhere; [lia|]. apply Hdisj. by apply list_elem_of_fmap_2.
  - simpl. rewrite clone_reqs_other.
    + simpl. by apply IH.
    + intros Hin. apply (Hdisj _ Hin). apply list_elem_of_fmap_2.
      apply list_elem_of_join. exists reqs. split; [done|].
      apply list_elem_of_fmap. by exists (q, reqs).
Qed.

(** X5.  On a single rank, or with an empty ledger, and a backend that
    answers every copy, dispatch ends normally and every request of every
    group has received exactly [repeats] responses more than it had. *)
Theorem unpadded_dispatch_exact_repeats (lm : @LM response) W s q reqs (req : Instance) :
  W <= 1 \/ (forall q', padding_requests s !!! q' = 0) ->
  Forall (answers lm) (requests s) ->
  NoDup (oid <$> mjoin (requests s).*2) ->
  (q, reqs) ∈ requests s -> req ∈ reqs ->
  exists s',
    dispatch lm W s = (s', Ok tt) /\
    length (resps s' !!! oid req) = length (resps s !!! oid req) + repeats req.
Proof.
  intros Hpad Hans Hnd Hg Hreq. rewrite dispatch_run.
  destruct (dispatch_groups_answered lm W (requests s) s Hans) as (s' & Hrun & Hcount).
  exists s'. split; [done|]. rewrite Hcount. f_equal.
  rewrite <- (copies_of_request (requests s) q reqs req) by done.
  f_equal. apply list_fmap_ext. intros _ [q' reqs'] _. unfold submitted. simpl.
  rewrite pad_reqs_none, app_nil_r; [done|]. destruct Hpad as [?|Hz]; [by left|right; apply Hz].
Qed.

End Answered.

Lemma unpadded_dispatch_exact_repeats_witness :
  (1 <= 1 \/ forall q', padding_requests holding_two !!! q' = 0) /\
  NoDup (oid <$> mjoin (requests holding_two).*2) /\
  ("generate_until", [inst0; inst1]) ∈ requests holding_two /\
  inst1 ∈ [inst0; inst1] /\
  exists s',
    dispatch lm_all 1 holding_two = (s', Ok tt) /\
    length (resps s' !!! oid inst1) = length (resps holding_two !!! oid inst1) + repeats inst1.
Proof.
  assert (Hnd : NoDup (oid <$> mjoin (requests holding_two).*2)).
  { change (NoDup [0; 1]). apply NoDup_cons. split; [|apply NoDup_singleton].
    intros Hin. apply list_elem_of_singleton in Hin. discriminate. }
  assert (Hgroup : ("generate_until", [inst0; inst1]) ∈ requests holding_two) by left.
  assert (Hreq : inst1 ∈ [inst0; inst1]) by (right; left).
  split; [left; lia|]. split; [exact Hnd|]. split; [exact Hgroup|]. split; [exact Hreq|].
  apply (unpadded_dispatch_exact_repeats lm_all 1 holding_two "generate_until" [inst0; inst1] inst1).
  - left. lia.
  - repeat constructor. exists answer_all. split; [reflexivity|]. intros batch. apply length_fmap.
  - exact Hnd.
  - exact Hgroup.
  - exact Hreq.
Defined.

(** ** The number of copies a rank submits *)

Section Copies.
Context {doc response scalar obj : Type}.
Context (get_sample_size : @Task doc response scalar obj -> option nat -> option nat).
Abbreviation state := (@state response scalar obj).
Implicit Types (s : state) (reqs : list Instance).

Lemma built_instances_elem rank W (tasks : list (@TaskOutput doc response scalar obj)) limit_
    (inst : Instance) :
  inst ∈ built_instances get_sample_size rank W tasks limit_ ->
  exists task_output limit', task_output ∈ tasks /\
    inst ∈ build_all_requests (task task_output) limit' rank W.
Proof.
  revert limit_. induction tasks as [|task_output tasks IH]; intros limit_ Hin; simpl in Hin.
  - by apply elem_of_nil in Hin.
  - apply elem_of_app in Hin as [Hin|Hin].
    + eexists _, _. split; [by left|done].
    + destruct (IH _ Hin) as (t' & l' & Ht' & Hin'). exists t', l'. split; [by right|done].
Qed.

Lemma clone_reqs_uniform k reqs :
  (forall req, req ∈ reqs -> repeats req = k) -> length (clone_reqs reqs) = k * length reqs.
Proof.
  induction reqs as [|req reqs IH]; intros Hk; [simpl; lia|].
  rewrite clone_reqs_cons, length_app, length_replicate, IH, (Hk req).
  - simpl. lia.
  - by left.
  - intros r Hr. apply Hk. by right.
Qed.

Lemma pad_reqs_uniform W n k reqs :
  1 < W -> reqs <> [] -> (forall req, req ∈ reqs -> repeats req = k) ->
  length (pad_reqs W n reqs) = k * n.
Proof.
  intros HW Hne Hk. unfold pad_reqs.
  destruct (last reqs) as [req|] eqn:Hlast; [|by apply last_None in Hlast].
  rewrite (Hk req) by (by eapply last_Some_elem_of).
  destruct (decide (1 < W ∧ 0 < n)) as [_|Hn].
  - induction n as [|n IH]; simpl; [lia|]. rewrite length_app, length_replicate, IH. lia.
  - assert (n = 0) as -> by lia. simpl. lia.
Qed.

(** X6.  When every request carries the type its task is booked under and
    asks for the same number [k] of samples, a rank that holds requests of
    a type submits for it [k] times the sum of the largest per-task counts:
    a number that is the same on every such rank. *)
Theorem submitted_copies_same_on_all_ranks (eval_tasks : list TaskOutput) limit0 W rank k q :
  rank < W ->
  (forall task_output limit_ r inst,
     task_output ∈ eval_tasks ->
     inst ∈ build_all_requests (task task_output) limit_ r W ->
     request_type inst = ledger_key (task task_output) /\ repeats inst = k) ->
  exists s,
    build_requests get_sample_size rank W eval_tasks (initial_state limit0) = (s, Ok tt) /\
    forall reqs,
      dict_get (requests s) q = Some reqs ->
      length (submitted W (padding_requests s) (q, reqs)).2
      = k * ledger_sum get_sample_size max_list W eval_tasks limit0 q.
Proof.
  intros Hr Hall. unfold build_requests.
  destruct (build_entries_run get_sample_size rank W (enumerate eval_tasks)
              (initial_state limit0) Hr) as (s & Hrun & Hp & Hc).
  destruct (build_entries_requests get_sample_size rank W (enumerate eval_tasks)
              (initial_state limit0) Hr) as (s0 & Hrun0 & Hcontent & Hne).
  rewrite Hrun in Hrun0. simplify_eq.
  assert (Hsnd : (enumerate eval_tasks).*2 = eval_tasks).
  { apply list_eq. intros i. rewrite list_lookup_fmap, enumerate_lookup.
    by destruct (eval_tasks !! i). }
  rewrite Hsnd in Hp, Hc, Hcontent.
  exists s0. split; [done|]. intros reqs Hreqs.
  specialize (Hc (fun t' l' r' i' Ht Hi => proj1 (Hall t' l' r' i' Ht Hi)) q).
  specialize (Hp q). specialize (Hcontent q).
  simpl in Hp, Hc, Hcontent. rewrite lookup_total_empty in Hp.
  unfold local_count in Hc. rewrite Hreqs in Hc, Hcontent. simpl in Hc, Hcontent.
  assert (Hk : forall req, req ∈ reqs -> repeats req = k).
  { intros req Hreq. rewrite Hcontent in Hreq. apply list_elem_of_filter in Hreq as [_ Hreq].
    apply built_instances_elem in Hreq as (t' & l' & Ht' & Hin').
    exact (proj2 (Hall t' l' rank req Ht' Hin')). }
  assert (Hnonempty : reqs <> []).
  { eapply (Hne ltac:(intros ? ? Hq; by simplify_eq/=)). exact Hreqs. }
  unfold submitted. simpl. rewrite length_app, (clone_reqs_uniform k) by done.
  assert (Hsum : length reqs + padding_requests s0 !!! q
                 = ledger_sum get_sample_size max_list W eval_tasks limit0 q).
  { rewrite Hc. destruct (decide (1 < W)) as [HW|HW].
    - rewrite Hp, Nat.add_comm. apply ledger_sum_add.
      intros g. destruct (g !! rank) as [n|] eqn:Hg; simpl; [|lia].
      apply own_count_le_max in Hg. lia.
    - rewrite Hp. simpl.
      assert (W = 1) as -> by lia. assert (rank = 0) as -> by lia.
      clear. revert limit0. induction eval_tasks as [|t ts IH]; intros limit0; simpl; [done|].
      rewrite <- (IH (get_sample_size (task t) limit0)). destruct (decide _); simpl; lia. }
  destruct (decide (1 < W)) as [HW|HW].
  - rewrite (pad_reqs_uniform W _ k) by done. rewrite <- Hsum. lia.
  - rewrite pad_reqs_none by lia. simpl. rewrite <- Hsum.
    rewrite Hp. simpl. lia.
Qed.

End Copies.

Lemma submitted_copies_same_on_all_ranks_witness :
  1 < 2 /\
  exists s,
    build_requests keep_limit 1 2 [mkTaskOutput "a" task_a] (initial_state None) = (s, Ok tt) /\
    forall reqs,
      dict_get (requests s) "generate_until" = Some reqs ->
      length (submitted 2 (padding_requests s) ("generate_until", reqs)).2
      = 1 * ledger_sum keep_limit max_list 2 [mkTaskOutput "a" task_a] None "generate_until".
Proof.
  split; [lia|].
  apply (submitted_copies_same_on_all_ranks keep_limit [mkTaskOutput "a" task_a] None 2 1 1
           "generate_until").
  - lia.
  - intros task_output limit_ r inst Htask Hinst.
    apply list_elem_of_singleton in Htask. subst task_output. simpl in Hinst.
    apply list_elem_of_fmap in Hinst as [[i d] [-> _]]. split; reflexivity.
Defined.

(** ** The sizes of the shards *)

Section Shard_sizes.
Context {doc : Type}.
Implicit Types docs : list doc.

Lemma islice_from_length_iff {A} (l : list A) r W j :
  0 < W -> j < length (islice_from r W l) <-> r + j * W < length l.
Proof.
  intros HW. rewrite <- !lookup_lt_is_Some. by rewrite islice_from_lookup.
Qed.

(** X7.  The shards are balanced: of two ranks the lower holds at least as
    many documents as the higher, and at most one more. *)
Theorem shard_sizes_balanced docs (limit_ : option nat) W r1 r2 :
  r1 <= r2 -> r2 < W ->
  length (shard docs r2 limit_ W) <= length (shard docs r1 limit_ W) /\
  length (shard docs r1 limit_ W) <= length (shard docs r2 limit_ W) + 1.
Proof.
  intros H12 H2. assert (HW : 0 < W) by lia.
  rewrite !shard_islice by done.
  set (L := enumerate (truncated docs limit_)).
  pose proof (islice_from_length_iff L r1 W) as I1.
  pose proof (islice_from_length_iff L r2 W) as I2.
  set (n1 := length (islice_from r1 W L)) in *.
  set (n2 := length (islice_from r2 W L)) in *.
  split.
  - destruct n2 as [|j]; [lia|].
    assert (j < n1); [|lia]. apply I1; [done|].
    assert (r2 + j * W < length L) by (apply I2; lia). lia.
  - destruct n1 as [|[|j]]; [lia|lia|].
    assert (j < n2); [|lia]. apply I2; [done|].
    assert (r1 + S j * W < length L) by (apply I1; lia). simpl in *. nia.
Qed.

Lemma shards_cover docs (limit_ : option nat) W :
  0 < W ->
  (seq 0 W ≫= fun r => shard docs r limit_ W) ≡ₚ enumerate (truncated docs limit_).
Proof.
  intros HW. apply NoDup_Permutation.
  - apply NoDup_bind; [|intros; by apply shard_NoDup|apply NoDup_seq].
    intros r1 r2 x Hr1%elem_of_seq Hr2%elem_of_seq. apply shards_disjoint; lia.
  - apply enumerate_NoDup.
  - intros [p d]. rewrite list_elem_of_bind, enumerate_elem. split.
    + intros (r & Hin & _). apply shard_elem in Hin; [tauto|done].
    + intros Hp. exists (p `mod` W). split.
      * apply shard_elem; [done|]. split; [done|]. exists (p `div` W).
        rewrite (Nat.div_mod_eq p W) at 1. lia.
      * apply elem_of_seq. split; [lia|]. simpl. apply Nat.mod_upper_bound. lia.
Qed.

(** X8.  The effective sample count of a task is the number of documents
    the ranks iterate over together, unless the limit is 0: then no rank
    iterates over any document, and the count is that of all documents. *)
Theorem effective_samples_counts_iterated docs (limit_ : option nat) W :
  0 < W ->
  (limit_ <> Some 0 ->
   effective_samples limit_ (length docs)
   = length (seq 0 W ≫= fun r => shard docs r limit_ W)) /\
  (limit_ = Some 0 ->
   (seq 0 W ≫= fun r => shard docs r limit_ W) = [] /\
   effective_samples limit_ (length docs) = length docs).
Proof.
  intros HW. pose proof (shards_cover docs limit_ W HW) as Hperm. split.
  - intros Hlimit. rewrite Hperm. unfold enumerate, truncated, effective_samples.
    rewrite length_imap. destruct limit_ as [l|]; [|lia].
    rewrite length_take. destruct (decide (l = 0)); [congruence|done].
  - intros ->. split.
    + apply Permutation_nil_r. by rewrite Hperm.
    + unfold effective_samples. simpl. lia.
Qed.

End Shard_sizes.

Lemma shard_sizes_balanced_witness :
  0 <= 1 /\ 1 < 2 /\
  length (shard [10; 11; 12] 1 None 2) <= length (shard [10; 11; 12] 0 None 2) /\
  length (shard [10; 11; 12] 0 None 2) <= length (shard [10; 11; 12] 1 None 2) + 1.
Proof.
  split; [lia|]. split; [lia|].
  apply (shard_sizes_balanced [10; 11; 12] None 2 0 1); lia.
Defined.

Lemma effective_samples_counts_iterated_witness :
  0 < 2 /\
  effective_samples (Some 2) (length [10; 11; 12])
  = length (seq 0 2 ≫= fun r => shard [10; 11; 12] r (Some 2) 2).
Proof.
  split; [lia|].
  apply (effective_samples_counts_iterated [10; 11; 12] (Some 2) 2); [lia|discriminate].
Defined.

(** ** Edges of the collection *)

Section Collect_edges.
Context {doc response scalar obj : Type}.
Context (get_sample_size : @Task doc response scalar obj -> option nat -> option nat).
Abbreviation state := (@state response scalar obj).
Implicit Types (s : state) (t : @Task doc response scalar obj).

(** X9.  A document of the shard for which the task holds no instance: the
    metric function is called with no response; with sample logging on the
    loop body then raises [IndexError] when it reads [requests[0]], and with
    sample logging off it ends normally when the metric function returns
    no metric, and raises [NameError] at line 519 when it returns one.  The
    state is the same in all three cases. *)
Theorem document_without_instances t i (by_doc : gmap nat (list Instance)) d (doc_ : doc) s :
  by_doc !!! d = [] ->
  collect_doc t i true by_doc (d, doc_) s = (s, Raise (IndexError "list index out of range")) /\
  (process_results t doc_ [] = [] ->
   collect_doc t i false by_doc (d, doc_) s = (s, Ok tt)) /\
  (process_results t doc_ [] <> [] ->
   collect_doc t i false by_doc (d, doc_) s = (s, Raise (NameError "filter_key"))).
Proof.
  intros Hempty. unfold collect_doc. rewrite Hempty. split_and!.
  - reflexivity.
  - intros Hmetrics. rewrite run_bind. unfold filtered_resps_of. simpl comprehension.
    change ((mret [] : M state (list response)) s) with (s, Ok (@nil response)). cbv beta iota.
    rewrite Hmetrics. reflexivity.
  - intros Hmetrics. rewrite run_bind. unfold filtered_resps_of. simpl comprehension.
    change ((mret [] : M state (list response)) s) with (s, Ok (@nil response)). cbv beta iota.
    destruct (process_results t doc_ []) as [|[metric value] rest]; [done|]. reflexivity.
Qed.

Lemma check_log_samples_passes log_samples (eval_tasks : list (@TaskOutput doc response scalar obj)) s :
  log_samples = true \/
  forallb (fun task_output => negb (has_bypass (task task_output))) eval_tasks = true ->
  check_log_samples log_samples eval_tasks s = (s, Ok tt).
Proof.
  unfold check_log_samples. intros [->| Hno]; [done|].
  destruct log_samples; [done|]. by rewrite Hno.
Qed.

(** X10.  Evaluating a task that builds no request on the rank: nothing is
    submitted to the backend, and the collection raises [IndexError] when
    it reads [task.instances[0]]. *)
Theorem task_without_instances_raises (lm : @LM response) (task_output : TaskOutput)
    log_samples limit0 rank W :
  rank < W ->
  log_samples = true \/ has_bypass (task task_output) = false ->
  build_all_requests (task task_output) (get_sample_size (task task_output) limit0) rank W = [] ->
  exists s,
    before_gather get_sample_size lm [task_output] log_samples rank W (initial_state limit0)
    = (s, Raise (IndexError "list index out of range")) /\
    lm_calls s = [].
Proof.
  intros Hr Hguard Hbuild. unfold before_gather.
  rewrite run_bind, check_log_samples_passes.
  2:{ destruct Hguard as [?|Hb]; [by left|right]. simpl. by rewrite Hb. }
  cbv beta iota. rewrite run_bind. unfold build_requests.
  change (enumerate [task_output]) with [(0, task_output)].
  rewrite run_for_each_cons.
  destruct (build_task_requests get_sample_size rank W 0 task_output (initial_state limit0) Hr)
    as (s1 & Hrun1 & _ & Hreq1).
  assert (Hinst : instances s1 !!! 0 = [] /\ lm_calls s1 = [] /\ resps s1 = ∅).
  { revert Hrun1. unfold build_task. rewrite run_bind. unfold get at 1. cbv beta iota.
    rewrite run_bind. unfold modify at 1. cbv beta iota.
    rewrite run_bind. unfold modify at 1. cbv beta iota.
    change (limit (initial_state limit0)) with limit0. rewrite Hbuild.
    rewrite run_bind. change (for_each [] _ ?x) with (x, Ok tt). cbv beta iota.
    destruct (decide (1 < W)).
    - rewrite run_bind. unfold numpad. rewrite gathered_counts_lookup by done.
      intros Heq. change (mbind ?k (mret ?a)) with (k a) in Heq.
      injection Heq as <-. simpl. by rewrite lookup_total_insert_eq.
    - intros Heq. injection Heq as <-. simpl. by rewrite lookup_total_insert_eq. }
  destruct Hinst as (Hinst & Hcalls & Hresps).
  rewrite Hrun1. change (for_each [] _ s1) with (s1, Ok tt). cbv beta iota.
  change (limit (initial_state limit0)) with limit0 in Hreq1.
  rewrite Hbuild in Hreq1. simpl in Hreq1.
  rewrite run_bind, dispatch_run, Hreq1.
  change (for_each [] _ s1) with (s1, Ok tt). cbv beta iota.
  rewrite run_for_each_cons. unfold collect_task.
  rewrite run_bind. unfold get at 1. cbv beta iota. rewrite Hinst.
  exists s1. split; [reflexivity|done].
Qed.

End Collect_edges.

Lemma document_without_instances_witness :
  (∅ : gmap nat (list Instance)) !!! 0 = [] /\
  collect_doc mixed_task 0 true ∅ (0, 10) (initial_state None)
  = (initial_state None, Raise (IndexError "list index out of range")) /\
  (process_results mixed_task 10 [] = [] ->
   collect_doc mixed_task 0 false ∅ (0, 10) (initial_state None) = (initial_state None, Ok tt)) /\
  (process_results mixed_task 10 [] <> [] ->
   collect_doc mixed_task 0 false ∅ (0, 10) (initial_state None)
   = (initial_state None, Raise (NameError "filter_key"))).
Proof.
  split; [reflexivity|].
  apply (document_without_instances mixed_task 0 ∅ 0 10 (initial_state None)). reflexivity.
Defined.

Lemma task_without_instances_raises_witness :
  1 < 2 /\
  build_all_requests task_a (keep_limit task_a (Some 1)) 1 2 = [] /\
  exists s,
    before_gather keep_limit lm_all [mkTaskOutput "a" task_a] true 1 2 (initial_state (Some 1))
    = (s, Raise (IndexError "list index out of range")) /\
    lm_calls s = [].
Proof.
  split; [lia|]. split; [reflexivity|].
  apply (task_without_instances_raises keep_limit lm_all (mkTaskOutput "a" task_a) true (Some 1) 1 2).
  - lia.
  - by left.
  - reflexivity.
Defined.

(** ** More on the polarity of the metrics of a group *)

Section Dict_elements.
Context {K V : Type} `{EqDecision K}.

Lemma elem_of_dict_set (d : dict K V) k v x : x ∈ dict_set d k v -> x ∈ d \/ x = (k, v).
Proof.
  induction d as [|[k0 v0] d IH]; simpl.
  - intros Hx. apply list_elem_of_singleton in Hx. by right.
  - destruct (decide (k0 = k)).
    + intros Hx. apply elem_of_cons in Hx as [->|Hx]; [by right|]. left. by right.
    + intros Hx. apply elem_of_cons in Hx as [->|Hx]; [left; by left|].
      destruct (IH Hx) as [?|?]; [left; by right|by right].
Qed.

Lemma dict_get_elem (d : dict K V) k v : dict_get d k = Some v -> (k, v) ∈ d.
Proof.
  induction d as [|[k0 v0] d IH]; simpl; [done|].
  destruct (decide (k0 = k)) as [->|]; [intros ?; simplify_eq; by left|].
  intros Hd. right. by apply IH.
Qed.

End Dict_elements.

Section Raising.
Context {S A : Type}.

(** A loop that raises has raised in one of its iterations. *)
Lemma for_each_raise (l : list A) (body : A -> M S unit) (s s' : S) e :
  for_each l body s = (s', Raise e) ->
  exists x s1, x ∈ l /\ body x s1 = (s', Raise e).
Proof.
  revert s. induction l as [|x l IH]; intros s Hrun.
  - change ((s, Ok tt) = (s', Raise e)) in Hrun. by simplify_eq.
  - rewrite run_for_each_cons in Hrun.
    destruct (body x s) as [s1 [[]|e1]] eqn:Hx.
    + destruct (IH s1 Hrun) as (y & s2 & Hy & Hbody). exists y, s2. split; [by right|done].
    + simplify_eq. exists x, s. split; [by left|done].
Qed.

End Raising.

Section Polarity_more.
Context (default_factory : bool).
Implicit Types (s : hib_state) (m group name : string) (h : polarity).

(** X11.  The only exception the consolidation raises is [KeyError], for a
    subtask of a group that [higher_is_better] has no entry for, and only
    when [higher_is_better] does not make up missing keys. *)
Theorem consolidation_raises_only_key_error (subtask_list : dict string (list string)) s s' e :
  consolidate_higher_is_better default_factory subtask_list s = (s', Raise e) ->
  default_factory = false /\
  exists group task_list name,
    (group, task_list) ∈ subtask_list /\ name ∈ task_list /\ e = KeyError name /\
    dict_get (higher_is_better s') name = None.
Proof.
  rewrite consolidate_run. intros Hrun.
  apply for_each_raise in Hrun as ([group task_list] & s1 & Hin & Hgroup).
  unfold consolidate_group in Hgroup.
  destruct (decide (length task_list ≠ 0)); [|done].
  rewrite run_bind in Hgroup.
  destruct (for_each task_list _ s1) as [s2 [[]|e2]] eqn:Hloop; [done|].
  simplify_eq. apply for_each_raise in Hloop as (name & sa & Hname & Htask).
  rewrite run_bind in Htask.
  destruct (items_of default_factory name sa) as [sb [items|e3]] eqn:Hitems.
  - exfalso. clear Hitems. revert sb Htask. induction items as [|[m h] items IH]; intros sb Htask.
    + done.
    + rewrite run_for_each_cons in Htask.
      destruct (merge_metric_spec group m h sb) as (sc & Hmerge & _).
      rewrite Hmerge in Htask. by eapply IH.
  - simplify_eq. unfold items_of in Hitems. rewrite run_bind in Hitems.
    unfold get at 1 in Hitems. cbv beta iota in Hitems.
    destruct (dict_get (higher_is_better sa) name) as [[d|]|] eqn:Hentry; [done|done|].
    destruct default_factory; [done|].
    injection Hitems as <- <-.
    split; [done|]. by exists group, task_list, name.
Qed.

(** X12.  A warning is only ever emitted for a metric whose recorded
    polarity ends as [None]: however the consolidation ends, every warning
    it has added names a metric for which the accumulator holds [None]. *)
Theorem warned_metric_recorded_none (subtask_list : dict string (list string)) s s' r m group :
  consolidate_higher_is_better default_factory subtask_list s = (s', r) ->
  (m, group) ∈ warnings s' ->
  (m, group) ∈ warnings s \/ dict_get (_higher_is_better s') m = Some None.
Proof.
  rewrite consolidate_run. intros Hrun Hw.
  set (G := is_group subtask_list).
  set (R := fun s1 s2 : hib_state =>
         advances G s1 s2 /\
         forall w, w ∈ warnings s2 ->
                   w ∈ warnings s1 \/ dict_get (_higher_is_better s2) w.1 = Some None).
  assert (Hrefl : Reflexive R).
  { intros s0. split; [reflexivity|]. intros w ?. by left. }
  assert (Htrans : Transitive R).
  { intros s1 s2 s3 [A12 W12] [A23 W23]. split; [by transitivity s2|].
    intros w Hw3. destruct (W23 w Hw3) as [Hw2|?]; [|by right].
    destruct (W12 w Hw2) as [?|Hnone]; [by left|]. right.
    destruct A23 as (Hev & _). specialize (Hev w.1). rewrite Hnone in Hev. exact Hev. }
  assert (Hmerge : forall g item s1 s2 r', merge_metric g item s1 = (s2, r') -> R s1 s2).
  { intros g [m0 h0] s1 s2 r' Hm. split; [by eapply merge_metric_advances|].
    destruct (merge_metric_spec g m0 h0 s1) as (s3 & Hrun3 & _ & _ & Hcase).
    rewrite Hrun3 in Hm. simplify_eq. intros w Hw2.
    destruct (dict_get (_higher_is_better s1) m0) as [[b|]|].
    - destruct (decide (Some b = h0)); [subst s2; by left|].
      destruct Hcase as [Hnone Hwarn]. rewrite Hwarn in Hw2.
      apply elem_of_app in Hw2 as [?|Hw2]; [by left|].
      apply list_elem_of_singleton in Hw2. subst w. by right.
    - subst s2. by left.
    - destruct Hcase as [_ Hwarn]. rewrite Hwarn in Hw2. by left. }
  assert (Hitems : forall name s1 s2 r', items_of default_factory name s1 = (s2, r') -> R s1 s2).
  { intros name s1 s2 r' Hi. split; [by eapply items_of_spec|].
    intros w Hw2. left. revert Hi Hw2. unfold items_of. rewrite run_bind.
    unfold get at 1. cbv beta iota.
    destruct (dict_get (higher_is_better s1) name) as [[d|]|]; [| |destruct default_factory];
      intros Hi; injection Hi as <- _; done. }
  assert (Hsub : forall g name s1 s2 r',
            (items ← items_of default_factory name; for_each items (merge_metric g)) s1 = (s2, r') ->
            R s1 s2).
  { intros g name s1 s2 r'. rewrite run_bind.
    destruct (items_of default_factory name s1) as [sa [items|e]] eqn:Hi.
    - intros Hloop. transitivity sa; [by eapply Hitems|].
      eapply (for_each_rel R); [|exact Hloop]. intros item ? ? ? _. apply Hmerge.
    - intros ?; simplify_eq. by eapply Hitems. }
  assert (HR : R (set_acc (fun _ => []) s) s').
  { eapply (for_each_rel R); [|exact Hrun].
    intros [g task_list] s1 s2 r' Hin. unfold consolidate_group.
    destruct (decide (length task_list ≠ 0)) as [Hne|_].
    - rewrite run_bind. destruct (for_each task_list _ s1) as [sa [[]|e]] eqn:Hloop.
      + intros Heq.
        change ((set_hib (fun d => dict_set d g Shared) sa, Ok tt) = (s2, r')) in Heq.
        simplify_eq. transitivity sa.
        * eapply (for_each_rel R); [|exact Hloop]. intros name ? ? ? _. apply Hsub.
        * split; [|intros w ?; by left]. apply store_shared_advances.
          exists task_list. split; [done|]. by destruct task_list.
      + intros ?; simplify_eq.
        eapply (for_each_rel R); [|exact Hloop]. intros name ? ? ? _. apply Hsub.
    - intros Heq. change ((s1, Ok tt) = (s2, r')) in Heq. by simplify_eq. }
  destruct HR as [_ HW]. exact (HW (m, group) Hw).
Qed.

End Polarity_more.

Section Agreement.
Context (default_factory : bool).
Implicit Types (s : hib_state) (m group name : string) (h : polarity).

(** The three ways lines 633-638 can leave the state. *)
Lemma merge_metric_cases group m h s :
  merge_metric group (m, h) s = (s, Ok tt) \/
  (dict_get (_higher_is_better s) m = None /\
   merge_metric group (m, h) s = (set_acc (fun d => dict_set d m h) s, Ok tt)) \/
  (exists b, dict_get (_higher_is_better s) m = Some (Some b) /\ Some b <> h /\
   merge_metric group (m, h) s
   = (set_acc (fun d => dict_set d m None) (warn m group s), Ok tt)).
Proof.
  assert (Hstep : merge_metric group (m, h) s
                  = match dict_get (_higher_is_better s) m with
                    | Some (Some b) =>
                        if decide (Some b ≠ h)
                        then (set_acc (fun d => dict_set d m None) (warn m group s), Ok tt)
                        else (s, Ok tt)
                    | Some None => (s, Ok tt)
                    | None => (set_acc (fun d => dict_set d m h) s, Ok tt)
                    end).
  { unfold merge_metric. rewrite run_bind. unfold get at 1. cbv beta iota.
    destruct (dict_get (_higher_is_better s) m) as [[b|]|] eqn:Hm.
    - rewrite run_bind. change ((mret tt : M hib_state unit) s) with (s, Ok tt). cbv beta iota.
      rewrite run_bind. unfold get at 1. cbv beta iota. rewrite Hm.
      by destruct (decide (Some b ≠ h)).
    - rewrite run_bind. change ((mret tt : M hib_state unit) s) with (s, Ok tt). cbv beta iota.
      rewrite run_bind. unfold get at 1. cbv beta iota. by rewrite Hm.
    - rewrite run_bind. unfold modify at 1. cbv beta iota.
      rewrite run_bind. unfold get at 1. cbv beta iota.
      assert (Hset : dict_get (_higher_is_better (set_acc (fun d => dict_set d m h) s)) m = Some h).
      { simpl. rewrite dict_get_set. by rewrite decide_True. }
      rewrite Hset. destruct h as [b|]; [|done].
      by rewrite decide_False by (intros Hne; by apply Hne). }
  rewrite Hstep. destruct (dict_get (_higher_is_better s) m) as [[b|]|]; [|by left|by right; left].
  destruct (decide (Some b ≠ h)); [|by left]. right. right. by exists b.
Qed.

(** X13.  When all the polarities declared for a metric agree, the record
    of a group with a subtask that declares it holds that polarity, and the
    consolidation adds no warning for the metric, whatever the groups. *)
Theorem agreeing_subtasks_keep_polarity (subtask_list : dict string (list string)) s s'
    group task_list name d m b :
  consolidate_higher_is_better default_factory subtask_list s = (s', Ok tt) ->
  (forall name' d' h,
     dict_get (higher_is_better s) name' = Some (Own d') -> (m, h) ∈ d' -> h = Some b) ->
  (group, task_list) ∈ subtask_list -> name ∈ task_list ->
  ~ is_group subtask_list name ->
  dict_get (higher_is_better s) name = Some (Own d) ->
  (m, Some b) ∈ d ->
  (exists d', recorded s' group = Some d' /\ dict_get d' m = Some (Some b)) /\
  (forall group', (m, group') ∈ warnings s' -> (m, group') ∈ warnings s).
Proof.
  intros Hrun Hagree Hin Hname Hleaf Hown Hitem.
  set (J := fun s1 : hib_state =>
         (forall name' d' h,
            dict_get (higher_is_better s1) name' = Some (Own d') -> (m, h) ∈ d' -> h = Some b) /\
         (forall h, (m, h) ∈ _higher_is_better s1 -> h = Some b) /\
         (forall group', (m, group') ∈ warnings s1 -> (m, group') ∈ warnings s)).
  set (R := fun s1 s2 : hib_state => J s1 -> J s2).
  assert (Hrefl : Reflexive R) by (by intros ? ?).
  assert (Htrans : Transitive R) by (intros ? ? ? H12 H23 ?; by apply H23, H12).
  assert (Hmerge : forall g m0 h0 s1 s2 r',
            (m0 = m -> h0 = Some b) -> merge_metric g (m0, h0) s1 = (s2, r') -> R s1 s2).
  { intros g m0 h0 s1 s2 r' Hm0 Hm (J1 & J2 & J3).
    destruct (merge_metric_cases g m0 h0 s1) as [E|[[_ E]|(b0 & Hget & Hne & E)]];
      rewrite E in Hm; simplify_eq.
    - done.
    - split_and!; [done| |done]. simpl. intros h Hh.
      apply elem_of_dict_set in Hh as [?|?]; [by apply J2|]. simplify_eq. by apply Hm0.
    - assert (m0 <> m).
      { intros ->. apply dict_get_elem in Hget. apply J2 in Hget. rewrite Hm0 in Hne; congruence. }
      split_and!; [done| |]; simpl.
      + intros h Hh. apply elem_of_dict_set in Hh as [?|?]; [by apply J2|]. by simplify_eq.
      + intros g' Hw. apply elem_of_app in Hw as [?|Hw]; [by apply J3|].
        apply list_elem_of_singleton in Hw. by simplify_eq. }
  assert (Hsub : forall g name' s1 s2 r',
            (items ← items_of default_factory name'; for_each items (merge_metric g)) s1 = (s2, r') ->
            R s1 s2).
  { intros g name' s1 s2 r'. rewrite run_bind. unfold items_of. rewrite run_bind.
    unfold get at 1. cbv beta iota. intros Hloop HJ. pose proof HJ as (J1 & J2 & J3).
    assert (Hloop' : forall items sa,
              (forall h, (m, h) ∈ items -> h = Some b) -> J sa ->
              for_each items (merge_metric g) sa = (s2, r') -> J s2).
    { intros items sa Hitems HJa Hl. revert HJa.
      eapply (for_each_rel R); [|exact Hl]. intros [m0 h0] ? ? ? Hi. apply Hmerge.
      intros ->. by apply Hitems. }
    destruct (dict_get (higher_is_better s1) name') as [[d'|]|] eqn:Hentry.
    - apply (Hloop' d' s1); [|done|exact Hloop]. intros h. by apply (J1 name').
    - apply (Hloop' (_higher_is_better s1) s1); [done|done|exact Hloop].
    - destruct default_factory.
      + apply (Hloop' [] (set_hib (fun d0 => dict_set d0 name' (Own [])) s1));
          [by intros ? ?%elem_of_nil| |exact Hloop].
        split_and!; [|done|done]. simpl. intros n' d' h. rewrite dict_get_set.
        destruct (decide (name' = n')); [|by apply J1].
        intros ?; simplify_eq. by intros ?%elem_of_nil.
      + injection Hloop as <- _. done. }
  assert (HJ : J s').
  { rewrite consolidate_run in Hrun.
    assert (HR : R (set_acc (fun _ => []) s) s').
    { eapply (for_each_rel R); [|exact Hrun].
      intros [g tl] s1 s2 r' _. unfold consolidate_group.
      destruct (decide (length tl ≠ 0)) as [_|_].
      - rewrite run_bind. destruct (for_each tl _ s1) as [sa [[]|e]] eqn:Hloop.
        + intros Heq.
          change ((set_hib (fun d0 => dict_set d0 g Shared) sa, Ok tt) = (s2, r')) in Heq.
          simplify_eq. transitivity sa.
          * eapply (for_each_rel R); [|exact Hloop]. intros n' ? ? ? _. apply Hsub.
          * intros (J1 & J2 & J3). split_and!; [|done|done]. simpl.
            intros n' d' h. rewrite dict_get_set.
            destruct (decide (g = n')); [done|by apply J1].
        + intros ?; simplify_eq.
          eapply (for_each_rel R); [|exact Hloop]. intros n' ? ? ? _. apply Hsub.
      - intros Heq. change ((s1, Ok tt) = (s2, r')) in Heq. by simplify_eq. }
    apply HR. split_and!; [exact Hagree|by intros ? ?%elem_of_nil|done]. }
  destruct HJ as (_ & J2 & J3). split; [|exact J3].
  exists (_higher_is_better s'). split.
  - unfold recorded. erewrite (group_holds_shared default_factory); [done|done|done|].
    by intros ->; apply elem_of_nil in Hname.
  - destruct (contribution_recorded default_factory subtask_list s s' group task_list name d m
                (Some b)) as [Hnone|?]; [done..| |done].
    apply dict_get_elem, J2 in Hnone. done.
Qed.

End Agreement.

(** The tasks of [two_groups] are no groups: their own lists are empty. *)
Lemma two_groups_leaf name : name ∈ ["a"; "b"; "c"; "d"] -> ~ is_group two_groups name.
Proof.
  intros Hname (task_list & Hin & Hne). unfold two_groups in Hin.
  repeat (apply elem_of_cons in Hname as [->|Hname];
          [repeat (apply elem_of_cons in Hin as [Hin|Hin]; [by simplify_eq|]);
           by apply elem_of_nil in Hin|]).
  by apply elem_of_nil in Hname.
Qed.

Lemma consolidation_raises_only_key_error_witness :
  consolidate_higher_is_better false two_groups nothing_declared
  = (nothing_declared, Raise (KeyError "a")) /\
  false = false /\
  exists group task_list name,
    (group, task_list) ∈ two_groups /\ name ∈ task_list /\ KeyError "a" = KeyError name /\
    dict_get (higher_is_better nothing_declared) name = None.
Proof.
  split; [reflexivity|].
  apply (consolidation_raises_only_key_error false two_groups nothing_declared nothing_declared
           (KeyError "a")).
  reflexivity.
Defined.

Lemma warned_metric_recorded_none_witness :
  let run := consolidate_higher_is_better true two_groups disagreeing in
  ("acc", "g1") ∈ warnings run.1 /\
  (("acc", "g1") ∈ warnings disagreeing \/ dict_get (_higher_is_better run.1) "acc" = Some None).
Proof.
  assert (Hwarned : ("acc", "g1")
                    ∈ warnings (consolidate_higher_is_better true two_groups disagreeing).1).
  { vm_compute. left. }
  split; [exact Hwarned|].
  apply (warned_metric_recorded_none true two_groups disagreeing
           (consolidate_higher_is_better true two_groups disagreeing).1
           (consolidate_higher_is_better true two_groups disagreeing).2 "acc" "g1").
  - reflexivity.
  - exact Hwarned.
Defined.

Lemma agreeing_subtasks_keep_polarity_witness :
  let s' := (consolidate_higher_is_better true two_groups agreeing).1 in
  consolidate_higher_is_better true two_groups agreeing = (s', Ok tt) /\
  (exists d', recorded s' "g2" = Some d' /\ dict_get d' "acc" = Some (Some true)) /\
  (forall group', ("acc", group') ∈ warnings s' -> ("acc", group') ∈ warnings agreeing).
Proof.
  split; [reflexivity|].
  apply (agreeing_subtasks_keep_polarity true two_groups agreeing
           (consolidate_higher_is_better true two_groups agreeing).1
           "g2" ["c"; "d"] "c" [("acc", Some true)] "acc" true).
  - reflexivity.
  - intros name' d' h Hget Hin. simpl in Hget.
    repeat case_decide; simplify_eq; apply list_elem_of_singleton in Hin; by simplify_eq.
  - right. left.
  - left.
  - apply two_groups_leaf. right. right. left.
  - reflexivity.
  - left.
Defined.

Lemma disagreement_recorded_none_witness :
  let s' := (consolidate_higher_is_better true two_groups disagreeing).1 in
  consolidate_higher_is_better true two_groups disagreeing = (s', Ok tt) /\
  exists d, recorded s' "g2" = Some d /\ dict_get d "acc" = Some None.
Proof.
  split; [reflexivity|].
  apply (disagreement_recorded_none true two_groups disagreeing
           (consolidate_higher_is_better true two_groups disagreeing).1
           "g2" ["c"; "d"] "c" "d" [("acc", Some true)] [("acc", Some false)] "acc").
  - reflexivity.
  - right. left.
  - left.
  - right. left.
  - apply two_groups_leaf. right. right. left.
  - apply two_groups_leaf. right. right. right. left.
  - reflexivity.
  - reflexivity.
  - left.
  - left.
Defined.

Lemma consolidate_ends_normally_witness :
  (forall group task_list name,
     (group, task_list) ∈ two_groups -> name ∈ task_list ->
     is_Some (dict_get (higher_is_better disagreeing) name)) /\
  exists s', consolidate_higher_is_better false two_groups disagreeing = (s', Ok tt).
Proof.
  assert (Hpresent : forall group task_list name,
            (group, task_list) ∈ two_groups -> name ∈ task_list ->
            is_Some (dict_get (higher_is_better disagreeing) name)).
  { intros group task_list name Hin Hname. unfold two_groups in Hin.
    repeat (apply elem_of_cons in Hin as [Hin|Hin];
            [simplify_eq;
             repeat (apply elem_of_cons in Hname as [->|Hname]; [by eexists|]);
             by apply elem_of_nil in Hname|]).
    by apply elem_of_nil in Hin. }
  split; [exact Hpresent|].
  apply (consolidate_ends_normally false two_groups disagreeing). right. exact Hpresent.
Defined.
